(** * TactiMesh: a shallow embedding of the node core of [tactimesh.py]

    The development follows the layout of the Python source:

    - data structures ([NodeIdentity], [Position], [TacticalMessage],
      [GeofenceZone]) as records;
    - [MilitaryCrypto.sign_message] / [verify_signature] over the PyNaCl and
      base64 primitives, which are fields of the class [Libraries];
    - [TacticalDatabase]: every SQLite table is the list of its rows in rowid
      order, [INSERT OR REPLACE] deletes the rows that conflict on the primary
      key and appends the new row;
    - the outbound [asyncio.PriorityQueue], which is [heapq] on a Python list
      of [(priority, message)] tuples;
    - [TactiMeshNode]: envelope codec, [send_message], one iteration of the
      transmit and of the receive loop, as functions on an explicit node state;
    - [SituationalAwareness.check_geofence_violations].

    Python exceptions are values of [result]; a [try ... except Exception]
    block is a [match] on that value.  Python [float]s are modelled by the
    rationals they denote (NaN and the infinities are outside the model), and
    Python [str]/[bytes] by [string]. *)

From Stdlib Require Import ZArith QArith Lqa Ascii.
From stdpp Require Import base list strings pretty sorting.

Set Warnings "-register-all".
Local Open Scope string_scope.
Local Open Scope Z_scope.
Local Open Scope list_scope.

(** ** Exceptions and fallible computations *)

Inductive exn : Set :=
| TypeError
| ValueError
| IndexError
| BinasciiError        (* base64.b64decode on incorrect padding *)
| BadSignatureError    (* nacl.exceptions.BadSignatureError *)
| CryptoError
| JSONDecodeError
| OperationalError     (* sqlite3.OperationalError: locked, read-only, full *)
| WKTReadingError.

Inductive result (A : Type) : Type :=
| Ok (a : A)
| Raise (e : exn).
Arguments Ok {A} a.
Arguments Raise {A} e.

Global Instance result_ret : MRet result := λ A a, Ok a.
Global Instance result_bind : MBind result := λ A B f m,
  match m with
  | Ok a => f a
  | Raise e => Raise e
  end.

Definition is_ok {A} (r : result A) : bool :=
  match r with Ok _ => true | Raise _ => false end.

(** ** JSON values, [json.dumps]

    A Python [dict] keeps its keys in insertion order, and [json.dumps] emits
    them in that order: a dict is an association list. *)

Inductive json : Type :=
| JNull
| JBool (b : bool)
| JInt (z : Z)
| JFloat (q : Q)
| JStr (s : string)
| JList (l : list json)
| JDict (kvs : list (string * json)).

Definition pydict := list (string * json).

(** [d.get(k)] *)
Fixpoint dict_get (k : string) (d : pydict) : option json :=
  match d with
  | [] => None
  | (k', v) :: d' => if String.eqb k k' then Some v else dict_get k d'
  end.

(** [d.pop(k, None)], for its effect on [d] *)
Definition dict_pop (k : string) (d : pydict) : pydict :=
  filter (λ kv, kv.1 ≠ k) d.

(** [d[k] = v]: an existing key keeps its place, a new key goes last *)
Fixpoint dict_set (k : string) (v : json) (d : pydict) : pydict :=
  match d with
  | [] => [(k, v)]
  | (k', v') :: d' =>
      if String.eqb k k' then (k, v) :: d' else (k', v') :: dict_set k v d'
  end.

(** ** Geometry values

    What [shapely.wkt.loads] returns for the text of a zone: a polygon, given
    by its outer ring and the rings of its holes.  A ring is the list of its
    vertices [(x, y)], the first vertex repeated at the end. *)

Definition coord := (Q * Q)%type.

Module Polygon.
Record t := mk {
  shell : list coord;
  holes : list (list coord)
}.
End Polygon.

(** ** The libraries under the program

    The functions of [json], [base64], PyNaCl and shapely that the program
    calls and whose code is not part of it.

    - [float_repr] is [float.__repr__], which [json.dumps] uses for floats;
    - [json_loads] is [json.loads] after [bytes.decode];
    - [b64decode] raises on incorrect padding; the key constructors raise on a
      key that is not 32 bytes long; [VerifyKey_verify] raises
      [BadSignatureError] on a signature that does not match and [ValueError]
      on one of the wrong length;
    - [wkt_loads] is [shapely.wkt.loads]. *)
Class Libraries := {
  float_repr : Q → string;
  json_loads : string → result json;
  b64decode : string → result string;
  b64encode : string → string;
  verify_key_t : Type;
  signing_key_t : Type;
  VerifyKey : string → result verify_key_t;
  VerifyKey_verify : verify_key_t → string → string → result string;
  SigningKey : string → result signing_key_t;
  SigningKey_sign : signing_key_t → string → result string;
  wkt_loads : string → result Polygon.t
}.

Definition hex_digit (n : N) : ascii :=
  match n with
  | 0 => "0" | 1 => "1" | 2 => "2" | 3 => "3" | 4 => "4" | 5 => "5"
  | 6 => "6" | 7 => "7" | 8 => "8" | 9 => "9" | 10 => "a" | 11 => "b"
  | 12 => "c" | 13 => "d" | 14 => "e" | _ => "f"
  end%N%char.

(** [json.encoder.py_encode_basestring_ascii]: the characters from space to
    tilde other than the backslash and the double quote stand for themselves,
    the others are escaped.  A character of [string] is a code point below
    256. *)
Definition escape_char (c : ascii) : string :=
  let n := N_of_ascii c in
  if (n =? 92)%N then String "\" (String "\" "")
  else if (n =? 34)%N then String "\" (String (ascii_of_N 34) "")
  else if (n =? 8)%N then "\b"
  else if (n =? 12)%N then "\f"
  else if (n =? 10)%N then "\n"
  else if (n =? 13)%N then "\r"
  else if (n =? 9)%N then "\t"
  else if ((32 <=? n) && (n <=? 126))%N then String c ""
  else "\u00" +:+ String (hex_digit (n / 16)) (String (hex_digit (n mod 16)) "").

Fixpoint escape_string (s : string) : string :=
  match s with
  | EmptyString => ""
  | String c s' => escape_char c +:+ escape_string s'
  end.

Definition quote (s : string) : string :=
  String (ascii_of_N 34) (escape_string s +:+ String (ascii_of_N 34) "").

Section Json.
Context {L : Libraries}.

(** [json.dumps(v, separators=(item_sep, key_sep))] *)
Fixpoint json_dumps (item_sep key_sep : string) (v : json) : string :=
  match v with
  | JNull => "null"
  | JBool true => "true"
  | JBool false => "false"
  | JInt z => pretty z
  | JFloat q => float_repr q
  | JStr s => quote s
  | JList l =>
      "[" +:+ String.concat item_sep (map (json_dumps item_sep key_sep) l) +:+ "]"
  | JDict kvs =>
      "{" +:+ String.concat item_sep
                (map (λ kv, quote kv.1 +:+ key_sep +:+ json_dumps item_sep key_sep kv.2) kvs)
          +:+ "}"
  end.

(** [json.dumps(v, separators=(',', ':'))], the wire form *)
Definition dumps_compact : json → string := json_dumps "," ":".
(** [json.dumps(v)], as stored in the TEXT columns *)
Definition dumps_default : json → string := json_dumps ", " ": ".
End Json.

(** ** Data structures *)

(** Readers of the fields of a keyword dictionary.  A dataclass does not check
    the types of its fields; the records below are typed, so a value of another
    JSON type is refused here with [TypeError] where Python builds the object
    all the same and carries the value along, and a JSON integer in the place
    of a float is read as the number it denotes.  What is proved of received
    frames and payloads is stated for the ones that these readers take, or for
    the ones refused for a key that is unknown or missing, where Python raises
    too. *)
Definition get_str (k : string) (d : pydict) : result string :=
  match dict_get k d with
  | Some (JStr s) => Ok s
  | _ => Raise TypeError
  end.

Definition get_int (k : string) (d : pydict) : result Z :=
  match dict_get k d with
  | Some (JInt z) => Ok z
  | _ => Raise TypeError
  end.

Definition get_float (k : string) (d : pydict) : result Q :=
  match dict_get k d with
  | Some (JFloat q) => Ok q
  | Some (JInt z) => Ok (inject_Z z)
  | _ => Raise TypeError
  end.

Definition get_opt_float (k : string) (d : pydict) : result (option Q) :=
  match dict_get k d with
  | Some JNull => Ok None
  | Some (JFloat q) => Ok (Some q)
  | Some (JInt z) => Ok (Some (inject_Z z))
  | _ => Raise TypeError
  end.

Definition get_opt_str (k : string) (d : pydict) : result (option string) :=
  match dict_get k d with
  | Some JNull | None => Ok None
  | Some (JStr s) => Ok (Some s)
  | _ => Raise TypeError
  end.

Definition as_str (v : json) : result string :=
  match v with JStr s => Ok s | _ => Raise TypeError end.

Definition get_str_list (k : string) (d : pydict) : result (list string) :=
  match dict_get k d with
  | Some (JList l) => mapM (M := result) as_str l
  | _ => Raise TypeError
  end.

Definition get_dict (k : string) (d : pydict) : result pydict :=
  match dict_get k d with
  | Some (JDict kvs) => Ok kvs
  | _ => Raise TypeError
  end.

(** [Cls( **d)]: every key of [d] names a field, every field without a default
    is among the keys; otherwise [TypeError]. *)
Definition check_kwargs (fields required : list string) (d : pydict) : result unit :=
  if forallb (λ kv, bool_decide (kv.1 ∈ fields)) d
     && forallb (λ f, bool_decide (f ∈ d.*1)) required
  then Ok tt else Raise TypeError.

Module NodeIdentity.
Record t := mk {
  node_id : string;
  callsign : string;
  unit : string;
  rank : string;
  role : string;
  clearance_level : Z;
  pubkey : string;
  verify_key : string;
  created : Q
}.

Definition fields : list string :=
  ["node_id"; "callsign"; "unit"; "rank"; "role"; "clearance_level";
   "pubkey"; "verify_key"; "created"].

(** [asdict(identity)] *)
Definition asdict (i : t) : pydict :=
  [("node_id", JStr (node_id i)); ("callsign", JStr (callsign i));
   ("unit", JStr (unit i)); ("rank", JStr (rank i)); ("role", JStr (role i));
   ("clearance_level", JInt (clearance_level i)); ("pubkey", JStr (pubkey i));
   ("verify_key", JStr (verify_key i)); ("created", JFloat (created i))].

(** [NodeIdentity( **d)] *)
Definition of_kwargs (d : pydict) : result t :=
  _ ← check_kwargs fields fields d;
  a ← get_str "node_id" d; b ← get_str "callsign" d; c ← get_str "unit" d;
  e ← get_str "rank" d; f ← get_str "role" d; g ← get_int "clearance_level" d;
  h ← get_str "pubkey" d; i ← get_str "verify_key" d; j ← get_float "created" d;
  mret (mk a b c e f g h i j).
End NodeIdentity.

Module Position.
Record t := mk {
  node_id : string;
  lat : Q;
  lon : Q;
  alt : Q;
  accuracy : Q;
  speed : Q;
  course : Q;
  timestamp : Q;
  mgrs : string
}.

Definition fields : list string :=
  ["node_id"; "lat"; "lon"; "alt"; "accuracy"; "speed"; "course";
   "timestamp"; "mgrs"].
Definition required : list string :=
  ["node_id"; "lat"; "lon"; "alt"; "accuracy"; "speed"; "course"; "timestamp"].

Definition asdict (p : t) : pydict :=
  [("node_id", JStr (node_id p)); ("lat", JFloat (lat p)); ("lon", JFloat (lon p));
   ("alt", JFloat (alt p)); ("accuracy", JFloat (accuracy p));
   ("speed", JFloat (speed p)); ("course", JFloat (course p));
   ("timestamp", JFloat (timestamp p)); ("mgrs", JStr (mgrs p))].

(** [Position( **d)]; [mgrs] defaults to the empty string *)
Definition of_kwargs (d : pydict) : result t :=
  _ ← check_kwargs fields required d;
  a ← get_str "node_id" d; b ← get_float "lat" d; c ← get_float "lon" d;
  e ← get_float "alt" d; f ← get_float "accuracy" d; g ← get_float "speed" d;
  h ← get_float "course" d; i ← get_float "timestamp" d;
  j ← match dict_get "mgrs" d with None => Ok "" | Some _ => get_str "mgrs" d end;
  mret (mk a b c e f g h i j).
End Position.

(** What [Position( *row)] makes of a row of the [SELECT] of
    [get_current_positions].  The columns are listed in the order of the
    table, which ends [mgrs, timestamp]; the fields of the class end
    [timestamp, mgrs]; a dataclass does not check the types of its fields.  So
    the object has the text of the column [mgrs] as its [timestamp] and the
    number of the column [timestamp] as its [mgrs]. *)
Module LoadedPosition.
Record t := mk {
  node_id : string;
  lat : Q;
  lon : Q;
  alt : Q;
  accuracy : Q;
  speed : Q;
  course : Q;
  timestamp : string;
  mgrs : Q
}.

Definition of_row (row : Position.t) : t :=
  mk (Position.node_id row) (Position.lat row) (Position.lon row) (Position.alt row)
     (Position.accuracy row) (Position.speed row) (Position.course row)
     (Position.mgrs row) (Position.timestamp row).
End LoadedPosition.

Module TacticalMessage.
Record t := mk {
  msg_id : string;
  msg_type : string;
  topic : string;
  sender : string;
  recipients : list string;
  classification : string;
  priority : Z;               (* 0=FLASH, 1=IMMEDIATE, 2=PRIORITY, 3=ROUTINE *)
  timestamp : Q;
  expires : option Q;
  payload : pydict;
  attachments : list string;
  signature : option string   (* defaults to None *)
}.

Definition fields : list string :=
  ["msg_id"; "msg_type"; "topic"; "sender"; "recipients"; "classification";
   "priority"; "timestamp"; "expires"; "payload"; "attachments"; "signature"].
Definition required : list string :=
  ["msg_id"; "msg_type"; "topic"; "sender"; "recipients"; "classification";
   "priority"; "timestamp"; "expires"; "payload"; "attachments"].

Definition json_of_opt_float (o : option Q) : json :=
  match o with Some q => JFloat q | None => JNull end.
Definition json_of_opt_str (o : option string) : json :=
  match o with Some s => JStr s | None => JNull end.

(** the fields of [asdict(message)] before [signature] *)
Definition asdict_body (m : t) : pydict :=
  [("msg_id", JStr (msg_id m)); ("msg_type", JStr (msg_type m));
   ("topic", JStr (topic m)); ("sender", JStr (sender m));
   ("recipients", JList (JStr <$> recipients m));
   ("classification", JStr (classification m)); ("priority", JInt (priority m));
   ("timestamp", JFloat (timestamp m)); ("expires", json_of_opt_float (expires m));
   ("payload", JDict (payload m));
   ("attachments", JList (JStr <$> attachments m))].

(** [asdict(message)] *)
Definition asdict (m : t) : pydict :=
  asdict_body m ++ [("signature", json_of_opt_str (signature m))].

(** [TacticalMessage( **d)] *)
Definition of_kwargs (d : pydict) : result t :=
  _ ← check_kwargs fields required d;
  a ← get_str "msg_id" d; b ← get_str "msg_type" d; c ← get_str "topic" d;
  e ← get_str "sender" d; f ← get_str_list "recipients" d;
  g ← get_str "classification" d; h ← get_int "priority" d;
  i ← get_float "timestamp" d; j ← get_opt_float "expires" d;
  k ← get_dict "payload" d; l ← get_str_list "attachments" d;
  s ← get_opt_str "signature" d;
  mret (mk a b c e f g h i j k l s).
End TacticalMessage.

Module GeofenceZone.
Record t := mk {
  zone_id : string;
  name : string;
  zone_type : string;      (* FRIENDLY, HOSTILE, RESTRICTED, OBJECTIVE *)
  polygon : string;        (* WKT format *)
  classification : string;
  created_by : string;
  created : Q;
  active : bool
}.
End GeofenceZone.

Definition TOPIC_BLUE_FORCE : string := "blue_force".
Definition TOPIC_ALERT : string := "alert".

(** ** Python equality on the values above

    [==] on JSON-shaped values: numbers compare by value across [bool], [int]
    and [float]; lists compare element by element; dicts compare as maps,
    whatever the order of their keys. *)

Definition json_num (v : json) : option Q :=
  match v with
  | JBool b => Some (if b then 1%Q else 0%Q)
  | JInt z => Some (inject_Z z)
  | JFloat q => Some q
  | _ => None
  end.

Fixpoint json_eqb (a b : json) : bool :=
  match a, b with
  | JNull, JNull => true
  | JStr s, JStr s' => String.eqb s s'
  | JList l, JList l' =>
      (fix go (l l' : list json) : bool :=
         match l, l' with
         | [], [] => true
         | x :: l, y :: l' => json_eqb x y && go l l'
         | _, _ => false
         end) l l'
  | JDict d, JDict d' =>
      Nat.eqb (length d) (length d') &&
      (fix go (d : list (string * json)) : bool :=
         match d with
         | [] => true
         | (k, v) :: d =>
             match dict_get k d' with
             | Some v' => json_eqb v v'
             | None => false
             end && go d
         end) d
  | _, _ =>
      match json_num a, json_num b with
      | Some x, Some y => Qeq_bool x y
      | _, _ => false
      end
  end.

Definition opt_eqb {A} (eqb : A → A → bool) (a b : option A) : bool :=
  match a, b with
  | None, None => true
  | Some x, Some y => eqb x y
  | _, _ => false
  end.

Definition str_list_eqb (l l' : list string) : bool := bool_decide (l = l').

(** The [__eq__] that [@dataclass] generates for [TacticalMessage]: the tuples
    of the fields are compared.  The class is declared without [order=True],
    so it has no [__lt__]. *)
Definition message_eqb (m m' : TacticalMessage.t) : bool :=
  String.eqb (TacticalMessage.msg_id m) (TacticalMessage.msg_id m')
  && String.eqb (TacticalMessage.msg_type m) (TacticalMessage.msg_type m')
  && String.eqb (TacticalMessage.topic m) (TacticalMessage.topic m')
  && String.eqb (TacticalMessage.sender m) (TacticalMessage.sender m')
  && str_list_eqb (TacticalMessage.recipients m) (TacticalMessage.recipients m')
  && String.eqb (TacticalMessage.classification m) (TacticalMessage.classification m')
  && Z.eqb (TacticalMessage.priority m) (TacticalMessage.priority m')
  && Qeq_bool (TacticalMessage.timestamp m) (TacticalMessage.timestamp m')
  && opt_eqb Qeq_bool (TacticalMessage.expires m) (TacticalMessage.expires m')
  && json_eqb (JDict (TacticalMessage.payload m)) (JDict (TacticalMessage.payload m'))
  && str_list_eqb (TacticalMessage.attachments m) (TacticalMessage.attachments m')
  && opt_eqb String.eqb (TacticalMessage.signature m) (TacticalMessage.signature m').

(** ** Cryptographic security module *)

(** [try: body except Exception as e: handler(e)] *)
Definition try_except {A} (body : result A) (handler : exn → result A) : result A :=
  match body with
  | Ok a => Ok a
  | Raise e => handler e
  end.

(** [self.keys], the content of [keys.json] *)
Module Keys.
Record t := mk {
  node_id : string;
  enc_private : string;
  enc_public : string;
  sig_private : string;
  sig_public : string;
  created : Q
}.
End Keys.

Section MilitaryCrypto.
Context {L : Libraries}.

(** The body of the [try] of [sign_message]; the handler logs and re-raises.
    The record is written to the log of the node in [transmit_step]. *)
Definition sign_message (keys : Keys.t) (data : string) : result string :=
  try_except
    (raw ← b64decode (Keys.sig_private keys);
     signing_key ← SigningKey raw;
     signature ← SigningKey_sign signing_key data;
     mret (b64encode signature))
    (λ e, Raise e).

(** The body of the [try] of [verify_signature] up to [return True] *)
Definition verify_signature_body (data signature public_key : string) : result bool :=
  raw ← b64decode public_key;
  verify_key ← VerifyKey raw;
  sig ← b64decode signature;
  _ ← VerifyKey_verify verify_key data sig;
  mret true.

(** [except (BadSignatureError, Exception)]: log a warning, [return False].
    The warning is written to the log of the node where [_decode_message]
    calls this function. *)
Definition verify_signature (data signature public_key : string) : result bool :=
  try_except (verify_signature_body data signature public_key) (λ e, mret false).
End MilitaryCrypto.

(** ** Database and persistence layer

    A table is the list of its rows in rowid order.  The tables [nodes],
    [positions], [messages] and [geofences] are declared with the primary keys
    [node_id], [node_id], [msg_id] and [zone_id].  The [positions] table also
    declares [FOREIGN KEY (node_id) REFERENCES nodes(node_id)]; SQLite enforces
    foreign keys only on a connection that has run [PRAGMA foreign_keys = ON],
    which no connection of the program does, so the clause has no effect on
    the statements below. *)

Module NodeRow.
Record t := mk {
  node_id : string;
  callsign : string;
  unit : string;
  rank : string;
  role : string;
  clearance_level : Z;
  pubkey : string;
  verify_key : string;
  last_seen : Q;
  status : string;        (* DEFAULT 'ACTIVE' *)
  created : Q
}.

(** the columns that [get_active_nodes] selects *)
Definition identity (r : t) : NodeIdentity.t :=
  NodeIdentity.mk (node_id r) (callsign r) (unit r) (rank r) (role r)
    (clearance_level r) (pubkey r) (verify_key r) (created r).
End NodeRow.

Module MessageRow.
Record t := mk {
  msg_id : string;
  msg_type : string;
  topic : string;
  sender : string;
  recipients : string;      (* JSON array *)
  classification : string;
  priority : Z;
  timestamp : Q;
  expires : option Q;
  payload : string;         (* JSON *)
  attachments : string;     (* JSON array *)
  signature : option string;
  delivered : bool;         (* DEFAULT FALSE *)
  acknowledged : bool       (* DEFAULT FALSE *)
}.
End MessageRow.

Record db := mk_db {
  (** whether SQLite can open and write the database file; [false] stands for
      a locked, read-only or full store, on which every statement raises *)
  available : bool;
  nodes : list NodeRow.t;
  positions : list Position.t;
  messages : list MessageRow.t;
  geofences : list GeofenceZone.t
}.

(** [_initialize_database] on a fresh file *)
Definition _initialize_database : db := mk_db true [] [] [] [].

(** [INSERT OR REPLACE] into a table whose primary key is the column [pk]: the
    rows that conflict with the new row are deleted, then the row is added. *)
Definition insert_or_replace {R} (pk : R → string) (row : R) (table : list R) : list R :=
  filter (λ r, pk r ≠ pk row) table ++ [row].

(** [with sqlite3.connect(self.db_path) as conn: ...] *)
Definition with_connection {A} (d : db) (body : result A) : result A :=
  if available d then body else Raise OperationalError.

Section TacticalDatabase.
Context {L : Libraries}.

(** [now] is the value of [time.time()] *)
Definition upsert_node (now : Q) (node : NodeIdentity.t) (d : db) : result db :=
  with_connection d
    (let row := NodeRow.mk (NodeIdentity.node_id node) (NodeIdentity.callsign node)
                  (NodeIdentity.unit node) (NodeIdentity.rank node)
                  (NodeIdentity.role node) (NodeIdentity.clearance_level node)
                  (NodeIdentity.pubkey node) (NodeIdentity.verify_key node)
                  now "ACTIVE" (NodeIdentity.created node) in
     Ok (mk_db (available d) (insert_or_replace NodeRow.node_id row (nodes d))
               (positions d) (messages d) (geofences d))).

Definition upsert_position (position : Position.t) (d : db) : result db :=
  with_connection d
    (Ok (mk_db (available d) (nodes d)
               (insert_or_replace Position.node_id position (positions d))
               (messages d) (geofences d))).

Definition message_row (message : TacticalMessage.t) : MessageRow.t :=
  MessageRow.mk (TacticalMessage.msg_id message) (TacticalMessage.msg_type message)
    (TacticalMessage.topic message) (TacticalMessage.sender message)
    (dumps_default (JList (JStr <$> TacticalMessage.recipients message)))
    (TacticalMessage.classification message) (TacticalMessage.priority message)
    (TacticalMessage.timestamp message) (TacticalMessage.expires message)
    (dumps_default (JDict (TacticalMessage.payload message)))
    (dumps_default (JList (JStr <$> TacticalMessage.attachments message)))
    (TacticalMessage.signature message) false false.

Definition store_message (message : TacticalMessage.t) (d : db) : result db :=
  with_connection d
    (Ok (mk_db (available d) (nodes d) (positions d)
               (insert_or_replace MessageRow.msg_id (message_row message) (messages d))
               (geofences d))).
End TacticalDatabase.

(** [ORDER BY last_seen DESC] and [ORDER BY p.timestamp DESC] *)
Definition later_seen (a b : NodeRow.t) : Prop :=
  (NodeRow.last_seen b <= NodeRow.last_seen a)%Q.
Definition newer (a b : Position.t) : Prop :=
  (Position.timestamp b <= Position.timestamp a)%Q.

Global Instance later_seen_dec : RelDecision later_seen.
Proof.
  intros a b. unfold later_seen.
  destruct (Qlt_le_dec (NodeRow.last_seen a) (NodeRow.last_seen b)) as [H|H].
  - right. intros H'. exact (Qlt_not_le _ _ H H').
  - left. exact H.
Defined.

Global Instance newer_dec : RelDecision newer.
Proof.
  intros a b. unfold newer.
  destruct (Qlt_le_dec (Position.timestamp a) (Position.timestamp b)) as [H|H].
  - right. intros H'. exact (Qlt_not_le _ _ H H').
  - left. exact H.
Defined.

Definition Qltb (a b : Q) : bool := negb (Qle_bool b a).

(** [SELECT ... FROM nodes WHERE last_seen > ? AND status = 'ACTIVE'
    ORDER BY last_seen DESC] *)
Definition get_active_nodes (now max_age_seconds : Q) (d : db)
  : result (list NodeIdentity.t) :=
  with_connection d
    (let cutoff_time := (now - max_age_seconds)%Q in
     Ok (NodeRow.identity <$>
         merge_sort later_seen
           (filter (λ n, Qltb cutoff_time (NodeRow.last_seen n) = true
                         ∧ NodeRow.status n = "ACTIVE") (nodes d)))).

(** The rows of [SELECT p.node_id, ..., p.course, p.mgrs, p.timestamp FROM
    positions p JOIN nodes n ON p.node_id = n.node_id WHERE p.timestamp > ?
    AND n.status = 'ACTIVE' ORDER BY p.timestamp DESC]: one result row for
    every pair of a position row and a node row that satisfies the join and the
    filter. *)
Definition current_position_rows (cutoff_time : Q) (d : db) : list Position.t :=
  merge_sort newer
    (p ← positions d;
     n ← nodes d;
     if bool_decide (Position.node_id p = NodeRow.node_id n)
        && Qltb cutoff_time (Position.timestamp p)
        && bool_decide (NodeRow.status n = "ACTIVE")
     then [p] else []).

(** [get_current_positions]: [[Position( *row) for row in cursor.fetchall()]] *)
Definition get_current_positions (now max_age_seconds : Q) (d : db)
  : result (list LoadedPosition.t) :=
  with_connection d
    (let cutoff_time := (now - max_age_seconds)%Q in
     Ok (LoadedPosition.of_row <$> current_position_rows cutoff_time d)).

(** The stores that the program can be in: a fresh one, and what the three
    writers make of a store; between two statements the file may become
    unwritable or writable again. *)
Inductive reachable {L : Libraries} : db → Prop :=
| reachable_init : reachable _initialize_database
| reachable_upsert_node now node d d' :
    reachable d → upsert_node now node d = Ok d' → reachable d'
| reachable_upsert_position position d d' :
    reachable d → upsert_position position d = Ok d' → reachable d'
| reachable_store_message message d d' :
    reachable d → store_message message d = Ok d' → reachable d'
| reachable_environment b d :
    reachable d →
    reachable (mk_db b (nodes d) (positions d) (messages d) (geofences d)).

(** ** The outbound queue: [asyncio.PriorityQueue]

    [PriorityQueue._put] is [heapq.heappush] and [PriorityQueue._get] is
    [heapq.heappop], on the Python list [self._queue] of the tuples
    [(priority, message)] that [send_message] puts.  The functions below follow
    [heapq.py]; each returns the list as the call leaves it, also when a
    comparison raises in the middle.  Where the interpreter has the C module
    [_heapq], [heapq] runs its functions in the place of these: they make the
    same comparisons in the same order and exchange two entries where these
    move a hole, so that the list is the same whenever no comparison raises
    and whenever the first comparison of a call does; after a comparison that
    raises later in a call the two lists differ. *)

Definition item := (Z * TacticalMessage.t)%type.

(** [x < y] on tuples: the first components that differ under [==] decide;
    two different messages are then compared with [<], which
    [TacticalMessage] does not define. *)
Definition item_lt (x y : item) : result bool :=
  if negb (x.1 =? y.1) then Ok (x.1 <? y.1)
  else if message_eqb x.2 y.2 then Ok false
  else Raise TypeError.

(** The [while pos > startpos] loop of [_siftdown]; [pos] decreases at every
    turn, so [fuel] above [pos] is never used up. *)
Fixpoint _siftdown_loop (fuel : nat) (newitem : item) (startpos pos : nat)
    (heap : list item) : list item * result unit :=
  match fuel with
  | O => (heap, Raise IndexError)
  | S fuel =>
      if bool_decide (startpos < pos)%nat then
        let parentpos := Nat.div2 (pos - 1) in
        match heap !! parentpos with
        | None => (heap, Raise IndexError)
        | Some parent =>
            match item_lt newitem parent with
            | Raise e => (heap, Raise e)
            | Ok true => _siftdown_loop fuel newitem startpos parentpos (<[pos := parent]> heap)
            | Ok false => (<[pos := newitem]> heap, Ok tt)
            end
        end
      else (<[pos := newitem]> heap, Ok tt)
  end.

Definition _siftdown (heap : list item) (startpos pos : nat) : list item * result unit :=
  match heap !! pos with
  | None => (heap, Raise IndexError)
  | Some newitem => _siftdown_loop (S pos) newitem startpos pos heap
  end.

(** The [while childpos < endpos] loop of [_siftup]; it returns the list and
    the position of the leaf it reached. *)
Fixpoint _siftup_loop (fuel : nat) (endpos pos : nat) (heap : list item)
    : list item * result nat :=
  match fuel with
  | O => (heap, Raise IndexError)
  | S fuel =>
      let childpos := (2 * pos + 1)%nat in
      if bool_decide (childpos < endpos)%nat then
        let rightpos := (childpos + 1)%nat in
        let pick : result nat :=
          if bool_decide (rightpos < endpos)%nat then
            match heap !! childpos, heap !! rightpos with
            | Some l, Some r =>
                match item_lt l r with
                | Ok b => Ok (if b then childpos else rightpos)
                | Raise e => Raise e
                end
            | _, _ => Raise IndexError
            end
          else Ok childpos in
        match pick with
        | Raise e => (heap, Raise e)
        | Ok childpos =>
            match heap !! childpos with
            | None => (heap, Raise IndexError)
            | Some child => _siftup_loop fuel endpos childpos (<[pos := child]> heap)
            end
        end
      else (heap, Ok pos)
  end.

Definition _siftup (heap : list item) (pos : nat) : list item * result unit :=
  match heap !! pos with
  | None => (heap, Raise IndexError)
  | Some newitem =>
      match _siftup_loop (length heap) (length heap) pos heap with
      | (heap, Raise e) => (heap, Raise e)
      | (heap, Ok leaf) => _siftdown (<[leaf := newitem]> heap) pos leaf
      end
  end.

(** [heap.append(item); _siftdown(heap, 0, len(heap)-1)] *)
Definition heappush (heap : list item) (x : item) : list item * result unit :=
  _siftdown (heap ++ [x]) 0 (length heap).

(** [lastelt = heap.pop()], then the root is replaced by [lastelt] and sifted *)
Definition heappop (heap : list item) : list item * result item :=
  match last heap with
  | None => (heap, Raise IndexError)
  | Some lastelt =>
      let heap := removelast heap in
      match heap with
      | [] => (heap, Ok lastelt)
      | returnitem :: _ =>
          match _siftup (<[0%nat := lastelt]> heap) 0 with
          | (heap, Raise e) => (heap, Raise e)
          | (heap, Ok _) => (heap, Ok returnitem)
          end
      end
  end.

(** ** Tactical mesh node *)

Inductive log_record : Type :=
| LogDebug (text : string)
| LogInfo (text : string)
| LogWarning (text : string)
| LogError (text : string) (e : exn).

Record node := mk_node {
  identity : NodeIdentity.t;
  keys : Keys.t;
  database : db;
  transports : list string;            (* the adapters that started, by name *)
  outbox : list item;                  (* the list under the PriorityQueue *)
  inbox : list (TacticalMessage.t * NodeIdentity.t);
  connected_clients : list string;
  log : list log_record;               (* what [logger] was given, oldest first *)
  wire : list (string * string);       (* (transport, datagram) handed to send *)
  ws_out : list (string * string)      (* (client, text) sent to web sockets *)
}.

Definition set_database (d : db) (st : node) : node :=
  mk_node (identity st) (keys st) d (transports st) (outbox st) (inbox st)
    (connected_clients st) (log st) (wire st) (ws_out st).
Definition set_outbox (q : list item) (st : node) : node :=
  mk_node (identity st) (keys st) (database st) (transports st) q (inbox st)
    (connected_clients st) (log st) (wire st) (ws_out st).
Definition set_inbox (q : list (TacticalMessage.t * NodeIdentity.t)) (st : node) : node :=
  mk_node (identity st) (keys st) (database st) (transports st) (outbox st) q
    (connected_clients st) (log st) (wire st) (ws_out st).
Definition add_log (r : log_record) (st : node) : node :=
  mk_node (identity st) (keys st) (database st) (transports st) (outbox st) (inbox st)
    (connected_clients st) (log st ++ [r]) (wire st) (ws_out st).
Definition add_wire (w : list (string * string)) (st : node) : node :=
  mk_node (identity st) (keys st) (database st) (transports st) (outbox st) (inbox st)
    (connected_clients st) (log st) (wire st ++ w) (ws_out st).
Definition add_ws_out (w : list (string * string)) (st : node) : node :=
  mk_node (identity st) (keys st) (database st) (transports st) (outbox st) (inbox st)
    (connected_clients st) (log st) (wire st) (ws_out st ++ w).

(** [bool(v)]: [None], [False], zero, the empty string, list and dict are
    false *)
Definition json_truthy (v : json) : bool :=
  match v with
  | JNull => false
  | JBool b => b
  | JInt z => negb (z =? 0)
  | JFloat q => negb (Qeq_bool q 0)
  | JStr s => negb (String.eqb s "")
  | JList l => negb (Nat.eqb (length l) 0)
  | JDict d => negb (Nat.eqb (length d) 0)
  end.

(** [d[k]]: [KeyError] on a missing key is folded into [TypeError] *)
Definition dict_item (k : string) (d : pydict) : result json :=
  match dict_get k d with
  | Some v => Ok v
  | None => Raise TypeError
  end.

Definition as_dict (v : json) : result pydict :=
  match v with JDict d => Ok d | _ => Raise TypeError end.

Section TactiMeshNode.
Context {L : Libraries}.

(** The envelope that [_encode_message] builds first: [asdict(message)]
    carries the key [signature] with the value of [message.signature]. *)
Definition envelope (i : NodeIdentity.t) (message_dict : pydict) : json :=
  JDict [("version", JStr "1.0");
         ("sender_identity", JDict (NodeIdentity.asdict i));
         ("message", JDict message_dict)].

(** [data], the bytes that [_encode_message] signs *)
Definition signing_input (i : NodeIdentity.t) (message : TacticalMessage.t) : string :=
  dumps_compact (envelope i (TacticalMessage.asdict message)).

(** the envelope after [envelope["message"]["signature"] = signature] *)
Definition signed_envelope (i : NodeIdentity.t) (message : TacticalMessage.t)
    (signature : string) : json :=
  envelope i (dict_set "signature" (JStr signature) (TacticalMessage.asdict message)).

(** The body of the [try] of [_encode_message]; the handler logs and
    re-raises. *)
Definition _encode_message (st : node) (message : TacticalMessage.t) : result string :=
  signature ← sign_message (keys st) (signing_input (identity st) message);
  mret (dumps_compact (signed_envelope (identity st) message signature)).

(** The outcome of the body of [_decode_message] before the upsert: one of
    its two [return None], or the message and the identity of the sender. *)
Inductive decoded : Type :=
| Unsigned
| Unverified
| Decoded (message : TacticalMessage.t) (sender_identity : NodeIdentity.t).

Definition decode_frame (data : string) : result decoded :=
  env ← json_loads data;
  env ← as_dict env;
  sender_dict ← (v ← dict_item "sender_identity" env; as_dict v);
  sender_identity ← NodeIdentity.of_kwargs sender_dict;
  message_data ← (v ← dict_item "message" env; as_dict v);
  let signature := default JNull (dict_get "signature" message_data) in
  if negb (json_truthy signature) then Ok Unsigned
  else
    let message_copy := dict_pop "signature" message_data in
    version ← dict_item "version" env;
    let verify_envelope :=
      JDict [("version", version);
             ("sender_identity", JDict sender_dict);
             ("message", JDict message_copy)] in
    let verify_data := dumps_compact verify_envelope in
    verified ← match signature with
               | JStr s =>
                   verify_signature verify_data s (NodeIdentity.verify_key sender_identity)
               | _ => Ok false      (* b64decode raises on a non-string *)
               end;
    if negb verified then Ok Unverified
    else
      message ← TacticalMessage.of_kwargs message_data;
      mret (Decoded message sender_identity).

(** [_decode_message]: the sender is upserted after the signature check and
    the construction of the message; every exception gives [None].  When the
    signature does not verify, [verify_signature] has logged its own warning
    before the one of [_decode_message]. *)
Definition _decode_message (now : Q) (st : node) (data : string)
  : option (TacticalMessage.t * NodeIdentity.t) * node :=
  match decode_frame data with
  | Raise e => (None, add_log (LogError "Message decoding failed" e) st)
  | Ok Unsigned => (None, add_log (LogWarning "Received unsigned message") st)
  | Ok Unverified =>
      (None, add_log (LogWarning "Message signature verification failed")
               (add_log (LogWarning "Signature verification failed") st))
  | Ok (Decoded message sender_identity) =>
      match upsert_node now sender_identity (database st) with
      | Raise e => (None, add_log (LogError "Message decoding failed" e) st)
      | Ok d => (Some (message, sender_identity), set_database d st)
      end
  end.

(** [send_message]; [msg_id] is the fresh [uuid4] and [now] the value of
    [time.time()].  The whole body is one [try]. *)
Definition send_message (msg_id : string) (now : Q) (topic : string) (payload : pydict)
    (recipients : list string) (priority : Z) (classification : string)
    (st : node) : node :=
  let message :=
    TacticalMessage.mk msg_id "DATA" topic (NodeIdentity.node_id (identity st))
      recipients classification priority now None payload [] None in
  match store_message message (database st) with
  | Raise e => add_log (LogError "Failed to send message" e) st
  | Ok d =>
      let st := set_database d st in
      match heappush (outbox st) (priority, message) with
      | (q, Raise e) => add_log (LogError "Failed to send message" e) (set_outbox q st)
      | (q, Ok _) =>
          add_log (LogInfo ("Queued message " +:+ msg_id +:+ " for transmission"))
                  (set_outbox q st)
      end
  end.

(** One turn of the [while] of [transmit_loop].  On an empty queue
    [wait_for] times out and the loop continues.  The step of
    [_encode_message] that raises is [sign_message], whose handler logs before
    it raises again; then the handler of [_encode_message] logs, then the one
    of the loop. *)
Definition transmit_step (st : node) : node :=
  match outbox st with
  | [] => st
  | _ =>
      match heappop (outbox st) with
      | (q, Raise e) => add_log (LogError "Transmission error" e) (set_outbox q st)
      | (q, Ok (priority, message)) =>
          let st := set_outbox q st in
          match _encode_message st message with
          | Raise e =>
              add_log (LogError "Transmission error" e)
                (add_log (LogError "Message encoding failed" e)
                   (add_log (LogError "Message signing failed" e) st))
          | Ok data =>
              add_log (LogDebug ("Transmitted message " +:+ TacticalMessage.msg_id message))
                      (add_wire ((λ t, (t, data)) <$> transports st) st)
          end
      end
  end.

(** [_broadcast_to_clients]; every [send_text] is taken to succeed *)
Definition _broadcast_to_clients (data : json) (st : node) : node :=
  match connected_clients st with
  | [] => st
  | clients => add_ws_out ((λ c, (c, dumps_default data)) <$> clients) st
  end.

(** [_process_received_message]; the whole body is one [try] *)
Definition _process_received_message (message : TacticalMessage.t) (st : node) : node :=
  let special : result node :=
    if String.eqb (TacticalMessage.topic message) TOPIC_BLUE_FORCE then
      position ← Position.of_kwargs (TacticalMessage.payload message);
      d ← upsert_position position (database st);
      mret (set_database d st)
    else if String.eqb (TacticalMessage.topic message) TOPIC_ALERT then
      Ok (add_log (LogWarning "TACTICAL ALERT") st)
    else Ok st in
  match special with
  | Raise e => add_log (LogError "Message processing error" e) st
  | Ok st =>
      _broadcast_to_clients
        (JDict [("type", JStr "message");
                ("data", JDict (TacticalMessage.asdict message))]) st
  end.

(** What [receive_loop] does with the datagram that a transport returned:
    nothing when it is empty.  An exception of [store_message] leaves the
    [try] of the loop. *)
Definition receive_datagram (now : Q) (data : string) (st : node) : node :=
  if String.eqb data "" then st
  else
    match _decode_message now st data with
    | (None, st) => st
    | (Some (message, sender_identity), st) =>
        match store_message message (database st) with
        | Raise e => add_log (LogError "Reception error" e) st
        | Ok d =>
            let st := _process_received_message message (set_database d st) in
            add_log (LogDebug ("Received message " +:+ TacticalMessage.msg_id message))
                    (set_inbox (inbox st ++ [(message, sender_identity)]) st)
        end
    end.
End TactiMeshNode.

(** ** Situational awareness engine *)

(** *** [polygon.contains(point)]

    shapely hands the predicate to GEOS, which locates the point against the
    rings of the polygon by counting the crossings of the ray that leaves the
    point to the right, and answers [contains] when the point is in the
    interior.  Its orientation test is exact on floats, so the computation is
    the one below on the rationals the floats denote. *)

Inductive location : Set := INTERIOR | BOUNDARY | EXTERIOR.

Definition Qeqb (a b : Q) : bool := Qeq_bool a b.
Definition Qleb (a b : Q) : bool := Qle_bool a b.

(** [Orientation.index(p1, p2, q)]: 1 when [q] is to the left of the line from
    [p1] to [p2], -1 to the right, 0 on the line *)
Definition orientation_index (p1 p2 q : coord) : Z :=
  let det := ((p2.1 - p1.1) * (q.2 - p1.2) - (p2.2 - p1.2) * (q.1 - p1.1))%Q in
  Z.sgn (Qnum det).

(** The state of a [RayCrossingCounter]: the number of crossings and whether
    the point was found on a segment. *)
Definition counter := (nat * bool)%type.

Definition countSegment (p p1 p2 : coord) (c : counter) : counter :=
  if Qltb p1.1 p.1 && Qltb p2.1 p.1 then c
  else if Qeqb p.1 p2.1 && Qeqb p.2 p2.2 then (c.1, true)
  else if Qeqb p1.2 p.2 && Qeqb p2.2 p.2 then
    let minx := if Qltb p2.1 p1.1 then p2.1 else p1.1 in
    let maxx := if Qltb p2.1 p1.1 then p1.1 else p2.1 in
    if Qleb minx p.1 && Qleb p.1 maxx then (c.1, true) else c
  else if (Qltb p.2 p1.2 && Qleb p2.2 p.2) || (Qltb p.2 p2.2 && Qleb p1.2 p.2) then
    let orient := orientation_index p1 p2 p in
    if orient =? 0 then (c.1, true)
    else
      let orient := if Qltb p2.2 p1.2 then - orient else orient in
      if orient =? 1 then (S c.1, c.2) else c
  else c.

(** [locatePointInRing]: the segments [(ring[i], ring[i-1])] in turn, stopping
    at the first that carries the point *)
Fixpoint count_ring (p : coord) (ring : list coord) (c : counter) : counter :=
  match ring with
  | prev :: ((cur :: _) as rest) =>
      let c := countSegment p cur prev c in
      if c.2 then c else count_ring p rest c
  | _ => c
  end.

Definition locate_in_ring (p : coord) (ring : list coord) : location :=
  let c := count_ring p ring (0%nat, false) in
  if c.2 then BOUNDARY
  else if Nat.odd c.1 then INTERIOR else EXTERIOR.

Fixpoint locate_in_holes (p : coord) (holes : list (list coord)) : location :=
  match holes with
  | [] => INTERIOR
  | hole :: holes =>
      match locate_in_ring p hole with
      | INTERIOR => EXTERIOR
      | BOUNDARY => BOUNDARY
      | EXTERIOR => locate_in_holes p holes
      end
  end.

Definition locate_in_polygon (p : coord) (poly : Polygon.t) : location :=
  match Polygon.shell poly with
  | [] => EXTERIOR
  | shell =>
      match locate_in_ring p shell with
      | INTERIOR => locate_in_holes p (Polygon.holes poly)
      | loc => loc
      end
  end.

Definition contains (poly : Polygon.t) (point : coord) : bool :=
  match locate_in_polygon point poly with
  | INTERIOR => true
  | _ => false
  end.

(** *** [check_geofence_violations] *)

Module Violation.
(** the dict appended to [violations] *)
Record t := mk {
  zone_id : string;
  name : string;
  type : string;
  classification : string
}.

Definition of_zone (z : GeofenceZone.t) : t :=
  mk (GeofenceZone.zone_id z) (GeofenceZone.name z) (GeofenceZone.zone_type z)
     (GeofenceZone.classification z).
End Violation.

Definition violating_type (zone_type : string) : bool :=
  bool_decide (zone_type ∈ ["HOSTILE"; "RESTRICTED"]).

Section SituationalAwareness.
Context {L : Libraries}.

(** The [for row in cursor.fetchall()] loop.  The text of every row is
    parsed before its type is looked at; when the parser raises, the [except]
    around the loop ends the scan and [violations] is returned as it is. *)
Fixpoint scan_zones (point : coord) (rows : list GeofenceZone.t)
    (violations : list Violation.t) : list Violation.t :=
  match rows with
  | [] => violations
  | z :: rows =>
      match wkt_loads (GeofenceZone.polygon z) with
      | Raise _ => violations
      | Ok polygon =>
          scan_zones point rows
            (if violating_type (GeofenceZone.zone_type z) && contains polygon point
             then violations ++ [Violation.of_zone z] else violations)
      end
  end.

(** The condition of the [if] in the loop, for a row whose text parses:
    the type is one of the two and the point is in the interior of the
    polygon. *)
Definition violated_by (point : coord) (z : GeofenceZone.t) : Prop :=
  (GeofenceZone.zone_type z = "HOSTILE" ∨ GeofenceZone.zone_type z = "RESTRICTED")
  ∧ ∃ polygon, wkt_loads (GeofenceZone.polygon z) = Ok polygon
      ∧ locate_in_polygon point polygon = INTERIOR.

(** [point = Point(position.lon, position.lat)], then the rows of
    [SELECT ... FROM geofences WHERE active = TRUE] *)
Definition check_geofence_violations (position : Position.t) (d : db)
  : list Violation.t :=
  let point := (Position.lon position, Position.lat position) in
  if available d then
    scan_zones point (filter (λ z, GeofenceZone.active z = true) (geofences d)) []
  else [].
End SituationalAwareness.

(** ** Scenarios

    Concrete nodes, messages and zones on which the functions above are run.
    The library functions are given stand-ins that compute: base64 text is
    taken to be the bytes themselves, a signing key and its verify key are the
    same string, a signature is that string followed by the signed data, and
    [json_loads] and [wkt_loads] know the texts listed for them. *)

Module Scenario.
Fixpoint frac_digits (fuel : nat) (r den : Z) : string :=
  match fuel with
  | O => ""
  | S fuel =>
      if r =? 0 then ""
      else pretty (r * 10 / den) +:+ frac_digits fuel (r * 10 mod den) den
  end.

(** decimal text with at least one digit after the point: 100.0, 37.1 *)
Definition repr (q : Q) : string :=
  let n := Qnum q in
  let d := Zpos (Qden q) in
  let a := Z.abs n in
  (if n <? 0 then "-" else "") +:+ pretty (a / d) +:+ "." +:+
  (if a mod d =? 0 then "0" else frac_digits 17 (a mod d) d).

Definition lookup {A} (table : list (string * A)) (s : string) : option A :=
  snd <$> find (λ kv, String.eqb kv.1 s) table.

Definition key_of (raw : string) : result string :=
  if String.eqb raw "" then Raise ValueError else Ok raw.

Definition sign (key data : string) : string := key +:+ ":" +:+ data.

Definition libs (frames : list (string * json)) (zones : list (string * Polygon.t))
  : Libraries := {|
  float_repr := repr;
  json_loads := λ s, from_option Ok (Raise JSONDecodeError) (lookup frames s);
  b64decode := Ok;
  b64encode := id;
  verify_key_t := string;
  signing_key_t := string;
  VerifyKey := key_of;
  VerifyKey_verify := λ key data sig,
    if String.eqb sig (sign key data) then Ok data else Raise BadSignatureError;
  SigningKey := key_of;
  SigningKey_sign := λ key data, Ok (sign key data);
  wkt_loads := λ s, from_option Ok (Raise WKTReadingError) (lookup zones s)
|}.

(** *** Two nodes *)

Definition alpha : NodeIdentity.t :=
  NodeIdentity.mk "a" "ALPHA" "1PLT" "E-4" "OPERATOR" 3 "EK_a" "VK_a" 1.
Definition alpha_keys : Keys.t := Keys.mk "a" "ek_a" "EK_a" "VK_a" "VK_a" 1.

Definition beta : NodeIdentity.t :=
  NodeIdentity.mk "b" "BRAVO" "1PLT" "E-4" "OPERATOR" 3 "EK_b" "VK_b" 2.
Definition beta_keys : Keys.t := Keys.mk "b" "ek_b" "EK_b" "VK_b" "VK_b" 2.

(** a node after [initialize]: its own row is in the store *)
Definition boot (i : NodeIdentity.t) (k : Keys.t) (now : Q) (d : db) : node :=
  mk_node i k
    (match upsert_node now i d with Ok d => d | Raise _ => d end)
    ["batman"] [] [] ["ws1"] [] [] [].

Definition alpha_node : node := boot alpha alpha_keys 10 _initialize_database.
Definition beta_node : node := boot beta beta_keys 10 _initialize_database.

(** *** Messages *)

Definition text_message (msg_id sender text : string) (priority : Z) (now : Q)
  : TacticalMessage.t :=
  TacticalMessage.mk msg_id "DATA" "command" sender [] "UNCLASSIFIED" priority now
    None [("text", JStr text)] [] None.

Definition move : pydict := [("text", JStr "move")].

(** *** Positions and zones *)

Definition P1 : Position.t := Position.mk "a" 37 (-122) 0 10 0 0 100 "".
Definition P2 : Position.t := Position.mk "a" (371 # 10) (-1221 # 10) 0 10 0 0 99 "".
Definition ghost : Position.t := Position.mk "ghost" 1 2 0 10 0 0 50 "".

Definition position_message (msg_id : string) (p : Position.t) (now : Q)
  : TacticalMessage.t :=
  TacticalMessage.mk msg_id "DATA" TOPIC_BLUE_FORCE (Position.node_id p) []
    "UNCLASSIFIED" 2 now None (Position.asdict p) [] None.

Definition square_wkt : string := "POLYGON ((0 0, 0 10, 10 10, 10 0, 0 0))".
Definition square : Polygon.t :=
  Polygon.mk [(0, 0); (0, 10); (10, 10); (10, 0); (0, 0)]%Q [].

Definition Z_zone : GeofenceZone.t :=
  GeofenceZone.mk "Z" "Zone Z" "HOSTILE" square_wkt "SECRET" "a" 1 true.

Definition zone_db : db := mk_db true [] [] [] [Z_zone].

Definition at_ (lat lon : Q) : Position.t := Position.mk "a" lat lon 0 10 0 0 100 "".

Definition geo_libs : Libraries := libs [] [(square_wkt, square)].
Definition plain_libs : Libraries := libs [] [].
(** *** Stored messages *)

Definition X_move : TacticalMessage.t := text_message "X" "a" "move" 2 11.
Definition X_halt : TacticalMessage.t := text_message "X" "a" "halt" 2 12.
Definition X_bravo : TacticalMessage.t := text_message "X" "b" "hold" 2 13.

(** the store of a node that knows [alpha], [P1] and an orphan position *)
Definition picture_db : db :=
  mk_db true
    [NodeRow.mk "a" "ALPHA" "1PLT" "E-4" "OPERATOR" 3 "EK_a" "VK_a" 100 "ACTIVE" 1;
     NodeRow.mk "c" "CHARLIE" "1PLT" "E-4" "OPERATOR" 3 "EK_c" "VK_c" 100 "INACTIVE" 1;
     NodeRow.mk "e" "ECHO" "1PLT" "E-4" "OPERATOR" 3 "EK_e" "VK_e" 100 "ACTIVE" 1]
    [P1; ghost;
     Position.mk "c" 3 4 0 10 0 0 120 "";
     Position.mk "e" 5 6 0 10 0 0 130 ""]
    [] [].
(** *** A receiver that tracks [alpha] *)

Definition alpha_row : NodeRow.t :=
  NodeRow.mk "a" "ALPHA" "1PLT" "E-4" "OPERATOR" 3 "EK_a" "VK_a" 100 "ACTIVE" 1.

(** [alpha] with a position that has its grid text *)
Definition P_grid : Position.t := Position.mk "a" 37 (-122) 0 10 0 0 100 "10SEG".
Definition grid_db : db := mk_db true [alpha_row] [P_grid] [] [].

Definition tracking_node : node :=
  mk_node beta beta_keys (mk_db true [alpha_row] [P1] [] [])
    ["batman"] [] [] ["ws1"] [] [] [].

(** a node whose database file cannot be written *)
Definition wedged_node : node :=
  mk_node alpha alpha_keys (mk_db false [alpha_row] [] [] [])
    ["batman"] [] [] ["ws1"] [] [] [].
(** *** Three messages of one priority, sent before the transmit loop runs *)

Definition send (msg_id : string) (now : Q) (priority : Z) (st : node) : node :=
  send_message (L := plain_libs) msg_id now "command" move [] priority "UNCLASSIFIED" st.

Definition three_queued : node := send "m3" 13 2 (send "m2" 12 2 (send "m1" 11 2 alpha_node)).

Definition three_turns (st : node) : node :=
  transmit_step (L := plain_libs)
    (transmit_step (L := plain_libs) (transmit_step (L := plain_libs) st)).

(** the message that [send] builds *)
Definition sent_message (msg_id : string) (now : Q) (priority : Z) : TacticalMessage.t :=
  TacticalMessage.mk msg_id "DATA" "command" "a" [] "UNCLASSIFIED" priority now None
    move [] None.

(** the datagram of a message of [alpha], empty when encoding raises *)
Definition frame (m : TacticalMessage.t) : string :=
  match _encode_message (L := plain_libs) alpha_node m with
  | Ok data => data
  | Raise _ => ""
  end.

(** ROUTINE first, FLASH second *)
Definition overtake_queued : node := send "M2" 12 0 (send "M1" 11 3 alpha_node).
(** *** A frame that advertises another verify key for [alpha]'s node_id *)

Definition mallory : NodeIdentity.t :=
  NodeIdentity.mk "a" "ALPHA" "1PLT" "E-4" "OPERATOR" 3 "EK_m" "VK_m" 1.

(** The envelope of a message whose signature is made over the envelope
    without the [signature] key, the form that [_decode_message] checks. *)
Definition envelope_signed_for_decode (i : NodeIdentity.t) (key : string)
    (m : TacticalMessage.t) : json :=
  let body := TacticalMessage.asdict_body m in
  let input := dumps_compact (L := plain_libs) (envelope i body) in
  envelope i (body ++ [("signature", JStr (sign key input))]).

Definition rekey_message : TacticalMessage.t := text_message "k1" "a" "fall back" 0 20.
Definition rekey_envelope : json := envelope_signed_for_decode mallory "VK_m" rekey_message.
Definition rekey_signature : string :=
  sign "VK_m"
    (dumps_compact (L := plain_libs)
       (envelope mallory (TacticalMessage.asdict_body rekey_message))).
(** the message as the receiver rebuilds it, with its signature *)
Definition rekey_decoded : TacticalMessage.t :=
  TacticalMessage.mk "k1" "DATA" "command" "a" [] "UNCLASSIFIED" 0 20 None
    [("text", JStr "fall back")] [] (Some rekey_signature).
Definition rekey_frame : string := dumps_compact (L := plain_libs) rekey_envelope.
Definition rekey_libs : Libraries := libs [(rekey_frame, rekey_envelope)] [].

(** *** The frame that [alpha] emits for the message of scenario S1 *)

Definition S1_message : TacticalMessage.t := sent_message "s1" 11 2.
Definition S1_signature : string := sign "VK_a" (signing_input (L := plain_libs) alpha S1_message).
Definition S1_envelope : json := signed_envelope alpha S1_message S1_signature.
Definition S1_frame : string := dumps_compact (L := plain_libs) S1_envelope.
Definition S1_libs : Libraries := libs [(S1_frame, S1_envelope)] [].
End Scenario.

(** * The rest of the node

    The functions of [tactimesh.py] around the ones above: the query behind
    [/api/messages], [get_tactical_picture], [_convert_to_mgrs] and
    [update_position], and the order of the outbound queue. *)

(** ** The query of [/api/messages] *)

(** [ORDER BY timestamp DESC] on message rows *)
Definition newer_message (a b : MessageRow.t) : Prop :=
  (MessageRow.timestamp b <= MessageRow.timestamp a)%Q.

Global Instance newer_message_dec : RelDecision newer_message.
Proof.
  intros a b. unfold newer_message.
  destruct (Qlt_le_dec (MessageRow.timestamp a) (MessageRow.timestamp b)) as [H|H].
  - right. intros H'. exact (Qlt_not_le _ _ H H').
  - left. exact H.
Defined.

(** [LIMIT ?]: SQLite takes a negative limit as no limit *)
Definition sql_limit {A} (limit : Z) (rows : list A) : list A :=
  if limit <? 0 then rows else take (Z.to_nat limit) rows.

(** [if topic:] is false for [None] and for the empty string *)
Definition topic_given (topic : option string) : option string :=
  match topic with
  | Some t => if String.eqb t "" then None else Some t
  | None => None
  end.

(** the rows that the [WHERE] of the query keeps *)
Definition matches_topic (topic : option string) (r : MessageRow.t) : Prop :=
  match topic_given topic with
  | Some t => MessageRow.topic r = t
  | None => True
  end.

(** The two [SELECT ... FROM messages [WHERE topic = ?] ORDER BY timestamp
    DESC LIMIT ?] of [get_messages].  Rows of one timestamp come here in the
    order of the table; SQLite may give them in another order, and nothing
    below depends on which. *)
Definition select_messages (topic : option string) (limit : Z) (d : db)
  : result (list MessageRow.t) :=
  with_connection d
    (let rows :=
       match topic_given topic with
       | Some t => filter (λ r, MessageRow.topic r = t) (messages d)
       | None => messages d
       end in
     Ok (sql_limit limit (merge_sort newer_message rows))).

(** ** The log

    [logged records st] is [st] with [records] written to the log after the
    ones it has, and nothing else changed. *)
Definition logged (records : list log_record) (st : node) : node :=
  mk_node (identity st) (keys st) (database st) (transports st) (outbox st) (inbox st)
    (connected_clients st) (log st ++ records) (wire st) (ws_out st).

(** ** [get_tactical_picture] *)

Module Feature.
(** a GeoJSON feature: the seven properties and the point [[lon, lat]].  The
    property [timestamp] is the field [timestamp] of the object that
    [get_current_positions] returned, the grid text of the row. *)
Record t := mk {
  node_id : string;
  lat : Q;
  lon : Q;
  alt : Q;
  speed : Q;
  course : Q;
  timestamp : string;
  coordinates : coord
}.

Definition of_position (p : LoadedPosition.t) : t :=
  mk (LoadedPosition.node_id p) (LoadedPosition.lat p) (LoadedPosition.lon p)
     (LoadedPosition.alt p) (LoadedPosition.speed p) (LoadedPosition.course p)
     (LoadedPosition.timestamp p)
     (LoadedPosition.lon p, LoadedPosition.lat p).
End Feature.

(** [Polygon([(minx, miny), (minx, maxy), (maxx, maxy), (maxx, miny)])];
    shapely closes the ring. *)
Definition bbox_polygon (bbox : Q * Q * Q * Q) : Polygon.t :=
  let '(minx, miny, maxx, maxy) := bbox in
  Polygon.mk [(minx, miny); (minx, maxy); (maxx, maxy); (maxx, miny); (minx, miny)] [].

(** [point.within(polygon)] is [polygon.contains(point)] *)
Definition within (point : coord) (poly : Polygon.t) : bool := contains poly point.

(** The features of the collection that [get_tactical_picture] returns; the
    positions are those of [get_current_positions()] with its default window
    of 300 seconds, and every exception gives the empty collection. *)
Definition get_tactical_picture (now : Q) (bbox : option (Q * Q * Q * Q)) (d : db)
  : list Feature.t :=
  match get_current_positions now 300 d with
  | Raise _ => []
  | Ok [] => []
  | Ok positions =>
      let kept :=
        match bbox with
        | Some b =>
            filter (λ p, within (LoadedPosition.lon p, LoadedPosition.lat p)
                                (bbox_polygon b) = true)
                   positions
        | None => positions
        end in
      Feature.of_position <$> kept
  end.

(** ** [update_position] *)

(** [int(q)]: truncation towards zero *)
Definition Qtruncate (q : Q) : Z := Z.quot (Qnum q) (Zpos (Qden q)).

(** [chr(n)]: [ValueError] outside [range(0x110000)].  The strings of the
    model have the code points below 256; from 256 on the model raises too. *)
Definition chr (n : Z) : result string :=
  if (n <? 0) || (255 <? n) then Raise ValueError
  else Ok (String (ascii_of_N (Z.to_N n)) "").

(** [_convert_to_mgrs]; the bare [except] returns the empty string.  The
    sums and quotients are exact here; the source rounds each to a double, so
    that next to the edge of a strip or a band its number or letter can be the
    neighbouring one. *)
Definition _convert_to_mgrs (lat lon : Q) : string :=
  let zone := Qtruncate ((lon + 180) / 6) + 1 in
  match chr (67 + Qtruncate ((lat + 80) / 8)) with
  | Ok letter => pretty zone +:+ letter
  | Raise _ => ""
  end.

(** the node together with [self.current_position] *)
Record tracker := mk_tracker {
  tnode : node;
  current_position : option Position.t
}.

Section Tracking.
Context {L : Libraries}.

(** [update_position]; [now] and [msg_id], [send_now] are the values of
    [time.time()] and [uuid4()] here and in [send_message].  The whole body is
    one [try]; [self.current_position] is assigned before the store is
    written. *)
Definition update_position (msg_id : string) (now send_now : Q)
    (lat lon alt accuracy speed course : Q) (t : tracker) : tracker :=
  let st := tnode t in
  let mgrs := _convert_to_mgrs lat lon in
  let position :=
    Position.mk (NodeIdentity.node_id (identity st)) lat lon alt accuracy speed course
      now mgrs in
  match upsert_position position (database st) with
  | Raise e =>
      mk_tracker (add_log (LogError "Position update failed" e) st) (Some position)
  | Ok d =>
      mk_tracker
        (send_message msg_id send_now TOPIC_BLUE_FORCE (Position.asdict position) []
           2 "UNCLASSIFIED" (set_database d st))
        (Some position)
  end.
End Tracking.

(** ** The order of the outbound queue

    The binary-heap order that [heapq] keeps on the list, stated on the
    priorities, and what holds in the middle of a sift, when the entry at
    [pos] is a hole that the item in hand will fill. *)

Definition heap_parent (j : nat) : nat := Nat.div2 (j - 1).

(** every entry is more urgent than its two children *)
Definition heap_ordered (heap : list item) : Prop :=
  ∀ j p c, (0 < j)%nat →
    heap !! heap_parent j = Some p → heap !! j = Some c → p.1 < c.1.

(** no two queued entries have the same priority *)
Definition distinct_priorities (heap : list item) : Prop := NoDup (fst <$> heap).

(** the order away from the hole, and across it *)
Definition hole_ordered (pos : nat) (heap : list item) : Prop :=
  (∀ j p c, (0 < j)%nat → j ≠ pos → heap_parent j ≠ pos →
     heap !! heap_parent j = Some p → heap !! j = Some c → p.1 < c.1)
  ∧ (∀ j g c, (0 < j)%nat → (0 < pos)%nat → heap_parent j = pos →
       heap !! heap_parent pos = Some g → heap !! j = Some c → g.1 < c.1).

(** the entries away from the hole have priorities of their own *)
Definition hole_distinct (pos : nat) (heap : list item) : Prop :=
  ∀ i j a b, i ≠ j → i ≠ pos → j ≠ pos →
    heap !! i = Some a → heap !! j = Some b → a.1 ≠ b.1.

(** the item in hand has a priority that no entry away from the hole has *)
Definition fresh_priority (x : item) (pos : nat) (heap : list item) : Prop :=
  ∀ j y, j ≠ pos → heap !! j = Some y → y.1 ≠ x.1.

(** ** More of the scenarios *)

Module Exercise.
Definition alpha_tracker : tracker := mk_tracker Scenario.alpha_node None.
Definition wedged_tracker : tracker := mk_tracker Scenario.wedged_node None.

(** [alpha] with a signing key that PyNaCl refuses *)
Definition keyless_node : node :=
  mk_node Scenario.alpha (Keys.mk "a" "ek_a" "EK_a" "" "VK_a" 1)
    (database Scenario.alpha_node) ["batman"; "lora"] [] [] ["ws1"] [] [] [].

(** [alpha] with both transports *)
Definition two_radio_node : node :=
  mk_node Scenario.alpha Scenario.alpha_keys (database Scenario.alpha_node)
    ["batman"; "lora"] [] [] ["ws1"] [] [] [].

(** a position report of a sender whose [Position] has a field more *)
Definition stray_message : TacticalMessage.t :=
  TacticalMessage.mk "p9" "DATA" TOPIC_BLUE_FORCE "a" [] "UNCLASSIFIED" 2 30 None
    (Position.asdict Scenario.P2 ++ [("heading", JFloat 90)]) [] None.
Definition stray_envelope : json :=
  Scenario.envelope_signed_for_decode Scenario.alpha "VK_a" stray_message.
Definition stray_signature : string :=
  Scenario.sign "VK_a"
    (dumps_compact (L := Scenario.plain_libs)
       (envelope Scenario.alpha (TacticalMessage.asdict_body stray_message))).
(** the message as the receiver rebuilds it *)
Definition stray_decoded : TacticalMessage.t :=
  TacticalMessage.mk "p9" "DATA" TOPIC_BLUE_FORCE "a" [] "UNCLASSIFIED" 2 30 None
    (Position.asdict Scenario.P2 ++ [("heading", JFloat 90)]) [] (Some stray_signature).
Definition stray_frame : string := dumps_compact (L := Scenario.plain_libs) stray_envelope.
Definition stray_libs : Libraries := Scenario.libs [(stray_frame, stray_envelope)] [].

(** a zone whose text was cut short, stored before zone Z *)
Definition torn_zone : GeofenceZone.t :=
  GeofenceZone.mk "T" "Zone T" "FRIENDLY" "POLYGON ((0 0, 0 10" "SECRET" "a" 1 true.
Definition torn_db : db := mk_db true [] [] [] [torn_zone; Scenario.Z_zone].
End Exercise.

(** * Properties *)

(** ** Tables under [INSERT OR REPLACE] *)

Section table.
Context {R : Type} (pk : R → string).

Lemma elem_of_insert_or_replace (r row : R) (table : list R) :
  r ∈ insert_or_replace pk row table ↔ (r ∈ table ∧ pk r ≠ pk row) ∨ r = row.
Proof.
  unfold insert_or_replace.
  rewrite elem_of_app, list_elem_of_filter, list_elem_of_singleton. tauto.
Qed.

Lemma NoDup_fmap_filter (P : R → Prop) `{∀ x, Decision (P x)} (table : list R) :
  NoDup (pk <$> table) → NoDup (pk <$> filter P table).
Proof.
  induction table as [|x table IH]; [done|].
  rewrite fmap_cons, NoDup_cons. intros [Hx Hnd].
  rewrite filter_cons. destruct (decide (P x)); [|by apply IH].
  rewrite fmap_cons, NoDup_cons. split; [|by apply IH].
  intros Hin. apply Hx.
  apply list_elem_of_fmap in Hin as (y & -> & Hy).
  apply list_elem_of_filter in Hy as [_ Hy].
  by apply list_elem_of_fmap_2.
Qed.

(** The primary key stays a key. *)
Lemma insert_or_replace_NoDup (row : R) (table : list R) :
  NoDup (pk <$> table) → NoDup (pk <$> insert_or_replace pk row table).
Proof.
  intros Hnd. unfold insert_or_replace. rewrite fmap_app. apply NoDup_app.
  split; [by apply NoDup_fmap_filter|]. split; [|apply NoDup_singleton].
  intros k Hk. cbn. rewrite list_elem_of_singleton. intros ->.
  apply list_elem_of_fmap in Hk as (y & Heq & Hy).
  apply list_elem_of_filter in Hy as [Hne _]. by apply Hne.
Qed.

(** The row found under the key of the new row is the new row. *)
Lemma insert_or_replace_at_key (r row : R) (table : list R) :
  r ∈ insert_or_replace pk row table → pk r = pk row → r = row.
Proof.
  rewrite elem_of_insert_or_replace. intros [[_ Hne] | ->] Heq; done.
Qed.

(** The rows under the other keys are the ones that were there. *)
Lemma insert_or_replace_other (r row : R) (table : list R) :
  pk r ≠ pk row → r ∈ insert_or_replace pk row table ↔ r ∈ table.
Proof.
  intros Hne. rewrite elem_of_insert_or_replace. split.
  - intros [[? _] | ->]; [done|]. by destruct Hne.
  - intros ?. by left.
Qed.

Lemma insert_or_replace_fresh (row : R) (table : list R) :
  pk row ∉ pk <$> table → insert_or_replace pk row table = table ++ [row].
Proof.
  intros Hfresh. unfold insert_or_replace. f_equal.
  induction table as [|x table IH]; [done|].
  rewrite fmap_cons, not_elem_of_cons in Hfresh. destruct Hfresh as [Hx Hrest].
  rewrite filter_cons. destruct (decide (pk x ≠ pk row)) as [_|Hn].
  - by rewrite IH.
  - destruct Hn. congruence.
Qed.
End table.

(** ** The store *)

Section database_properties.
Context {L : Libraries}.

Lemma store_message_ok (m : TacticalMessage.t) (d : db) :
  available d = true →
  store_message m d =
    Ok (mk_db true (nodes d) (positions d)
          (insert_or_replace MessageRow.msg_id (message_row m) (messages d))
          (geofences d)).
Proof. intros Ha. unfold store_message, with_connection. by rewrite Ha. Qed.

Lemma store_message_raises (m : TacticalMessage.t) (d : db) :
  available d = false → store_message m d = Raise OperationalError.
Proof. intros Ha. unfold store_message, with_connection. by rewrite Ha. Qed.

Lemma upsert_position_ok (p : Position.t) (d : db) :
  available d = true →
  upsert_position p d =
    Ok (mk_db true (nodes d) (insert_or_replace Position.node_id p (positions d))
          (messages d) (geofences d)).
Proof. intros Ha. unfold upsert_position, with_connection. by rewrite Ha. Qed.

Lemma upsert_node_ok (now : Q) (i : NodeIdentity.t) (d : db) :
  available d = true →
  ∃ d', upsert_node now i d = Ok d'
    ∧ available d' = true
    ∧ positions d' = positions d ∧ messages d' = messages d
    ∧ geofences d' = geofences d
    ∧ ∃ row, nodes d' = insert_or_replace NodeRow.node_id row (nodes d)
        ∧ NodeRow.node_id row = NodeIdentity.node_id i
        ∧ NodeRow.verify_key row = NodeIdentity.verify_key i
        ∧ NodeRow.identity row = i.
Proof.
  intros Ha. unfold upsert_node, with_connection. rewrite Ha.
  eexists. split; [done|]. simpl. repeat split; try done.
  eexists. split; [done|]. simpl. repeat split. by destruct i.
Qed.
End database_properties.

(** In every store that the program can be in, [node_id] is a key of [nodes]
    and of [positions] and [msg_id] is a key of [messages]. *)
Lemma reachable_keys {L : Libraries} (d : db) :
  reachable d →
  NoDup (NodeRow.node_id <$> nodes d)
  ∧ NoDup (Position.node_id <$> positions d)
  ∧ NoDup (MessageRow.msg_id <$> messages d).
Proof.
  induction 1 as [|now node d d' _ IH Hop|position d d' _ IH Hop
                  |message d d' _ IH Hop|b d _ IH].
  - repeat split; apply NoDup_nil_2.
  - destruct IH as (Hn & Hp & Hm).
    unfold upsert_node, with_connection in Hop.
    destruct (available d); [|done]. injection Hop as <-. simpl.
    repeat split; try done. by apply insert_or_replace_NoDup.
  - destruct IH as (Hn & Hp & Hm).
    unfold upsert_position, with_connection in Hop.
    destruct (available d); [|done]. injection Hop as <-. simpl.
    repeat split; try done. by apply insert_or_replace_NoDup.
  - destruct IH as (Hn & Hp & Hm).
    unfold store_message, with_connection in Hop.
    destruct (available d); [|done]. injection Hop as <-. simpl.
    repeat split; try done. by apply insert_or_replace_NoDup.
  - done.
Qed.

(** At most one row satisfies a condition that fixes the key. *)
Lemma NoDup_key_filter_length {R} (pk : R → string) (P : R → Prop)
    `{∀ r, Decision (P r)} (k : string) (table : list R) :
  (∀ r, P r → pk r = k) →
  NoDup (pk <$> table) →
  (length (filter P table) ≤ 1)%nat.
Proof.
  intros HP. induction table as [|x table IH]; [simpl; lia|].
  rewrite fmap_cons, NoDup_cons. intros [Hx Hnd].
  rewrite filter_cons. destruct (decide (P x)) as [Hk|_]; [|by apply IH].
  destruct (filter P table) as [|r rest] eqn:Hf; [simpl; lia|].
  exfalso. assert (r ∈ filter P table) as Hr by (rewrite Hf; apply list_elem_of_here).
  apply list_elem_of_filter in Hr as [Hrk Hr].
  apply Hx. rewrite (HP _ Hk), <- (HP _ Hrk). by apply list_elem_of_fmap_2.
Qed.

(** ** C2: duplicate suppression in the store *)

(** C2, as stated, fails: [store_message] is keyed on [msg_id] alone and
    replaces.  A second arrival of the same [(sender, msg_id)] with another
    payload changes the stored row, and a message of sender [b] with the
    [msg_id] of a stored message of sender [a] takes the place of that
    message. *)
Lemma C2_second_arrival_overwrites :
  ∃ d1 d2 d3,
    store_message (L := Scenario.plain_libs) Scenario.X_move _initialize_database = Ok d1
    ∧ store_message (L := Scenario.plain_libs) Scenario.X_halt d1 = Ok d2
    ∧ store_message (L := Scenario.plain_libs) Scenario.X_bravo d1 = Ok d3
    ∧ MessageRow.payload <$> messages d1 = ["{" +:+ quote "text" +:+ ": " +:+ quote "move" +:+ "}"]
    ∧ MessageRow.payload <$> messages d2 = ["{" +:+ quote "text" +:+ ": " +:+ quote "halt" +:+ "}"]
    ∧ messages d2 ≠ messages d1
    ∧ MessageRow.sender <$> messages d1 = ["a"]
    ∧ MessageRow.sender <$> messages d3 = ["b"].
Proof.
  do 3 eexists. repeat split; try (vm_compute; reflexivity).
  vm_compute. discriminate.
Qed.

(** C2, amended: [store_message] inserts the row of the message under its
    [msg_id], in the place of any row stored under that [msg_id], whatever the
    sender of that row.  [msg_id] stays a key of the table, so at most one row
    is stored for every [(sender, msg_id)]; the row stored under the [msg_id]
    of the message is the row of the message that arrived last; the rows under
    the other [msg_id]s are untouched. *)
Theorem C2_store_message_replaces_on_msg_id {L : Libraries}
    (m : TacticalMessage.t) (d : db) :
  available d = true →
  NoDup (MessageRow.msg_id <$> messages d) →
  ∃ d', store_message m d = Ok d'
    ∧ NoDup (MessageRow.msg_id <$> messages d')
    ∧ (∀ sender msg_id,
         length (filter (λ r, MessageRow.msg_id r = msg_id ∧ MessageRow.sender r = sender)
                        (messages d')) ≤ 1)%nat
    ∧ message_row m ∈ messages d'
    ∧ (∀ r, r ∈ messages d' →
            MessageRow.msg_id r = TacticalMessage.msg_id m → r = message_row m)
    ∧ (∀ r, MessageRow.msg_id r ≠ TacticalMessage.msg_id m →
            r ∈ messages d' ↔ r ∈ messages d)
    ∧ nodes d' = nodes d ∧ positions d' = positions d.
Proof.
  intros Ha Hnd. eexists. split; [by apply store_message_ok|]. simpl.
  assert (NoDup (MessageRow.msg_id <$>
                 insert_or_replace MessageRow.msg_id (message_row m) (messages d)))
    as Hnd' by by apply insert_or_replace_NoDup.
  repeat split; try done.
  - intros sender msg_id.
    apply (NoDup_key_filter_length MessageRow.msg_id _ msg_id); [tauto|done].
  - apply elem_of_insert_or_replace. by right.
  - intros r Hr Hid. by apply (insert_or_replace_at_key MessageRow.msg_id _ _ _ Hr).
  - by apply (insert_or_replace_other MessageRow.msg_id).
  - by apply (insert_or_replace_other MessageRow.msg_id).
Qed.

Lemma C2_store_message_replaces_witness :
  ∃ d', store_message (L := Scenario.plain_libs) Scenario.X_halt
          (mk_db true [] [] [message_row (L := Scenario.plain_libs) Scenario.X_move] [])
        = Ok d'
    ∧ MessageRow.timestamp <$> messages d' = [12%Q].
Proof.
  destruct (C2_store_message_replaces_on_msg_id (L := Scenario.plain_libs) Scenario.X_halt
              (mk_db true [] [] [message_row (L := Scenario.plain_libs) Scenario.X_move] []))
    as (d' & Hd' & _).
  - reflexivity.
  - apply NoDup_singleton.
  - exists d'. split; [exact Hd'|].
    vm_compute in Hd'. injection Hd' as <-. reflexivity.
Defined.

(** ** C5: position timestamps on receive *)

Section received_positions.
Context {L : Libraries}.

Lemma database_broadcast (data : json) (st : node) :
  database (_broadcast_to_clients data st) = database st.
Proof. unfold _broadcast_to_clients. by destruct (connected_clients st). Qed.

Lemma process_blue_force (m : TacticalMessage.t) (st : node) (p : Position.t) :
  TacticalMessage.topic m = TOPIC_BLUE_FORCE →
  Position.of_kwargs (TacticalMessage.payload m) = Ok p →
  available (database st) = true →
  positions (database (_process_received_message m st))
    = insert_or_replace Position.node_id p (positions (database st)).
Proof.
  intros Ht Hp Ha. unfold _process_received_message.
  rewrite Ht, Hp. simpl.
  rewrite (upsert_position_ok _ _ Ha). simpl.
  by rewrite database_broadcast.
Qed.
End received_positions.

(** C5, as stated, fails: a [blue_force] position older than the stored one
    is written over it.  With [P1] (timestamp 100) stored for node [a], the
    message that carries [P2] (timestamp 99) leaves [P2] in the store. *)
Lemma C5_stale_position_overwrites :
  positions (database Scenario.tracking_node) = [Scenario.P1]
  ∧ positions (database
      (_process_received_message (L := Scenario.plain_libs)
         (Scenario.position_message "p2" Scenario.P2 99) Scenario.tracking_node))
    = [Scenario.P2]
  ∧ (Position.timestamp Scenario.P2 < Position.timestamp Scenario.P1)%Q.
Proof. split; [reflexivity|]. split; [vm_compute; reflexivity|]. reflexivity. Qed.

(** C5, amended: for each [node_id] the store holds at most one position row,
    and it is the position of the [blue_force] message processed last for that
    node: an inbound position takes the place of the stored row whatever the
    two timestamps are; the rows of the other nodes are untouched. *)
Theorem C5_received_position_replaces {L : Libraries}
    (m : TacticalMessage.t) (p : Position.t) (st : node) :
  TacticalMessage.topic m = TOPIC_BLUE_FORCE →
  Position.of_kwargs (TacticalMessage.payload m) = Ok p →
  available (database st) = true →
  NoDup (Position.node_id <$> positions (database st)) →
  let stored := positions (database (_process_received_message m st)) in
  NoDup (Position.node_id <$> stored)
  ∧ (∀ n, length (filter (λ r, Position.node_id r = n) stored) ≤ 1)%nat
  ∧ p ∈ stored
  ∧ (∀ r, r ∈ stored → Position.node_id r = Position.node_id p → r = p)
  ∧ (∀ r, Position.node_id r ≠ Position.node_id p →
          r ∈ stored ↔ r ∈ positions (database st)).
Proof.
  intros Ht Hp Ha Hnd stored. subst stored.
  rewrite (process_blue_force m st p Ht Hp Ha).
  assert (NoDup (Position.node_id <$>
                 insert_or_replace Position.node_id p (positions (database st))))
    as Hnd' by by apply insert_or_replace_NoDup.
  repeat split; try done.
  - intros n. by apply (NoDup_key_filter_length Position.node_id _ n).
  - apply elem_of_insert_or_replace. by right.
  - intros r Hr Hid. by apply (insert_or_replace_at_key Position.node_id _ _ _ Hr).
  - by apply (insert_or_replace_other Position.node_id).
  - by apply (insert_or_replace_other Position.node_id).
Qed.

Lemma C5_received_position_replaces_witness :
  Scenario.P2 ∈ positions (database
      (_process_received_message (L := Scenario.plain_libs)
         (Scenario.position_message "p2" Scenario.P2 99) Scenario.tracking_node)).
Proof.
  refine (proj1 (proj2 (proj2
    (C5_received_position_replaces (L := Scenario.plain_libs)
       (Scenario.position_message "p2" Scenario.P2 99) Scenario.P2
       Scenario.tracking_node _ _ _ _)))).
  - reflexivity.
  - vm_compute. reflexivity.
  - reflexivity.
  - apply NoDup_singleton.
Defined.

(** ** C7: positions without a node row *)

(** C7 fails on the code: [upsert_position] never looks at the [nodes] table.
    A position whose [node_id] has no node row is written like any other. *)
Theorem C7_upsert_position_stores_orphan (p : Position.t) (d : db) :
  available d = true →
  Position.node_id p ∉ NodeRow.node_id <$> nodes d →
  ∃ d', upsert_position p d = Ok d'
    ∧ p ∈ positions d'
    ∧ nodes d' = nodes d
    ∧ Position.node_id p ∉ NodeRow.node_id <$> nodes d'.
Proof.
  intros Ha Horphan. eexists. split; [by apply upsert_position_ok|]. simpl.
  split; [|done]. apply elem_of_insert_or_replace. by right.
Qed.

Lemma C7_upsert_position_stores_orphan_witness :
  ∃ d', upsert_position Scenario.ghost _initialize_database = Ok d'
    ∧ positions d' = [Scenario.ghost] ∧ nodes d' = [].
Proof.
  destruct (C7_upsert_position_stores_orphan Scenario.ghost _initialize_database)
    as (d' & Hd' & _).
  - reflexivity.
  - simpl. apply not_elem_of_nil.
  - exists d'. split; [exact Hd'|].
    vm_compute in Hd'. injection Hd' as <-. split; reflexivity.
Defined.

(** ** C10: the read-side guard on positions *)

Lemma Qltb_lt (a b : Q) : Qltb a b = true ↔ (a < b)%Q.
Proof.
  unfold Qltb. rewrite negb_true_iff, <- not_true_iff_false, Qle_bool_iff.
  split; [apply Qnot_le_lt|apply Qlt_not_le].
Qed.

Global Instance newer_total : Total newer.
Proof.
  intros a b. unfold newer.
  destruct (Qlt_le_dec (Position.timestamp a) (Position.timestamp b)) as [H|H].
  - right. by apply Qlt_le_weak.
  - by left.
Qed.

Global Instance newer_trans : Transitive newer.
Proof. intros a b c Hab Hbc. unfold newer in *. by eapply Qle_trans. Qed.

(** The rows that the join and the filter of [get_current_positions] let
    through. *)
Lemma elem_of_joined (cutoff : Q) (d : db) (p : Position.t) :
  p ∈ (p ← positions d;
       n ← nodes d;
       if bool_decide (Position.node_id p = NodeRow.node_id n)
          && Qltb cutoff (Position.timestamp p)
          && bool_decide (NodeRow.status n = "ACTIVE")
       then [p] else [])
  ↔ p ∈ positions d
    ∧ (cutoff < Position.timestamp p)%Q
    ∧ ∃ n, n ∈ nodes d
        ∧ NodeRow.node_id n = Position.node_id p
        ∧ NodeRow.status n = "ACTIVE".
Proof.
  rewrite list_elem_of_bind. split.
  - intros (p' & Hp & Hp'). apply list_elem_of_bind in Hp as (n & Hp & Hn).
    destruct (bool_decide (Position.node_id p' = NodeRow.node_id n)) eqn:Hid;
      [|by apply not_elem_of_nil in Hp].
    destruct (Qltb cutoff (Position.timestamp p')) eqn:Hts;
      [|by apply not_elem_of_nil in Hp].
    destruct (bool_decide (NodeRow.status n = "ACTIVE")) eqn:Hst;
      [|by apply not_elem_of_nil in Hp].
    simpl in Hp. apply list_elem_of_singleton in Hp as ->.
    apply bool_decide_eq_true in Hid, Hst. apply Qltb_lt in Hts.
    split; [done|]. split; [done|]. by exists n.
  - intros (Hp & Hts & n & Hn & Hid & Hst).
    exists p. split; [|done]. apply list_elem_of_bind. exists n. split; [|done].
    rewrite (bool_decide_eq_true_2 _ (eq_sym Hid)), (bool_decide_eq_true_2 _ Hst).
    apply Qltb_lt in Hts. rewrite Hts. simpl. apply list_elem_of_here.
Qed.

Lemma elem_of_current_position_rows (cutoff : Q) (d : db) (p : Position.t) :
  p ∈ current_position_rows cutoff d
  ↔ p ∈ positions d
    ∧ (cutoff < Position.timestamp p)%Q
    ∧ ∃ n, n ∈ nodes d
        ∧ NodeRow.node_id n = Position.node_id p
        ∧ NodeRow.status n = "ACTIVE".
Proof.
  unfold current_position_rows. rewrite merge_sort_Permutation.
  apply elem_of_joined.
Qed.

(** C10 fails on the code by a slip.  The query does what the claim says of
    the rows: on a store that answers, the rows it selects are newer than
    [now - max_age_seconds], belong to a node row whose status is ACTIVE (so a
    stored position whose [node_id] has no node row is not selected), and come
    newest first.  But every object that [get_current_positions] returns is
    built from its row with the last two values exchanged: its [timestamp] is
    the [mgrs] text of the row, and its [mgrs] is the timestamp of the row.  No
    returned position has a timestamp that is a number, and so none has one
    greater than [now - max_age_seconds]. *)
Theorem C10_returned_timestamp_is_mgrs (now max_age_seconds : Q) (d : db) :
  available d = true →
  ∃ rows, get_current_positions now max_age_seconds d
          = Ok (LoadedPosition.of_row <$> rows)
    ∧ (∀ p, p ∈ rows →
         p ∈ positions d
         ∧ (now - max_age_seconds < Position.timestamp p)%Q
         ∧ ∃ n, n ∈ nodes d
             ∧ NodeRow.node_id n = Position.node_id p
             ∧ NodeRow.status n = "ACTIVE")
    ∧ (∀ p, p ∈ positions d →
         Position.node_id p ∉ NodeRow.node_id <$> nodes d → p ∉ rows)
    ∧ StronglySorted newer rows
    ∧ (∀ o, o ∈ LoadedPosition.of_row <$> rows →
         ∃ p, p ∈ rows
           ∧ LoadedPosition.node_id o = Position.node_id p
           ∧ LoadedPosition.timestamp o = Position.mgrs p
           ∧ LoadedPosition.mgrs o = Position.timestamp p).
Proof.
  intros Ha. unfold get_current_positions, with_connection. rewrite Ha.
  eexists. split; [done|]. split; [|split; [|split]].
  - intros p Hp. by apply elem_of_current_position_rows in Hp.
  - intros p _ Horphan Hp.
    apply elem_of_current_position_rows in Hp as (_ & _ & n & Hn & Hid & _).
    apply Horphan. rewrite <- Hid. by apply list_elem_of_fmap_2.
  - apply StronglySorted_merge_sort; apply _.
  - intros o Ho. apply list_elem_of_fmap in Ho as (p & -> & Hp). by exists p.
Qed.

(** The store of the failing input: [alpha] is ACTIVE and has one position,
    written at time 100 with the grid text 10SEG.  Read at time 140 with the
    window of 300 seconds, [get_current_positions] returns one object whose
    [timestamp] is that text and whose [mgrs] is 100. *)
Lemma C10_returned_timestamp_is_mgrs_witness :
  (∃ rows, get_current_positions 140 300 Scenario.grid_db
           = Ok (LoadedPosition.of_row <$> rows)
     ∧ (∀ p, p ∈ rows →
          p ∈ positions Scenario.grid_db
          ∧ (140 - 300 < Position.timestamp p)%Q
          ∧ ∃ n, n ∈ nodes Scenario.grid_db
              ∧ NodeRow.node_id n = Position.node_id p
              ∧ NodeRow.status n = "ACTIVE")
     ∧ (∀ p, p ∈ positions Scenario.grid_db →
          Position.node_id p ∉ NodeRow.node_id <$> nodes Scenario.grid_db → p ∉ rows)
     ∧ StronglySorted newer rows
     ∧ (∀ o, o ∈ LoadedPosition.of_row <$> rows →
          ∃ p, p ∈ rows
            ∧ LoadedPosition.node_id o = Position.node_id p
            ∧ LoadedPosition.timestamp o = Position.mgrs p
            ∧ LoadedPosition.mgrs o = Position.timestamp p))
  ∧ get_current_positions 140 300 Scenario.grid_db
    = Ok [LoadedPosition.mk "a" 37 (-122) 0 10 0 0 "10SEG" 100].
Proof.
  split; [|reflexivity].
  apply (C10_returned_timestamp_is_mgrs 140 300 Scenario.grid_db). reflexivity.
Defined.

(** ** C8: a store failure on the outbound path *)

(** C8, as stated, fails: on a store that cannot be written, [send_message]
    logs the failure and stops there; nothing is queued and the next turn of
    the transmit loop sends nothing. *)
Lemma C8_store_failure_blocks_transmission :
  let st := Scenario.send "m1" 11 2 Scenario.wedged_node in
  outbox st = []
  ∧ log st = [LogError "Failed to send message" OperationalError]
  ∧ wire (transmit_step (L := Scenario.plain_libs) st) = [].
Proof. vm_compute. repeat split; reflexivity. Qed.

(** C8, amended: when storing the outgoing message raises, [send_message]
    logs the failure and does nothing else: the message is not put on the
    outbound queue, so it is not transmitted. *)
Theorem C8_send_message_store_failure {L : Libraries}
    (msg_id : string) (now : Q) (topic : string) (payload : pydict)
    (recipients : list string) (priority : Z) (classification : string)
    (st : node) (e : exn) :
  store_message
    (TacticalMessage.mk msg_id "DATA" topic (NodeIdentity.node_id (identity st))
       recipients classification priority now None payload [] None)
    (database st) = Raise e →
  let st' := send_message msg_id now topic payload recipients priority classification st in
  st' = add_log (LogError "Failed to send message" e) st
  ∧ outbox st' = outbox st
  ∧ wire st' = wire st
  ∧ database st' = database st.
Proof. intros Hfail. unfold send_message. rewrite Hfail. done. Qed.

Lemma C8_send_message_store_failure_witness :
  outbox (send_message (L := Scenario.plain_libs) "m1" 11 "command" Scenario.move []
            2 "UNCLASSIFIED" Scenario.wedged_node)
  = outbox Scenario.wedged_node.
Proof.
  refine (proj1 (proj2
    (C8_send_message_store_failure (L := Scenario.plain_libs) "m1" 11 "command"
       Scenario.move [] 2 "UNCLASSIFIED" Scenario.wedged_node OperationalError _))).
  reflexivity.
Defined.

(** ** C9: [verify_signature] is total *)

(** C9: for every data, signature text and key text, [verify_signature]
    returns a boolean and raises nothing; the boolean is [True] exactly when
    both texts decode, the key is built and the signature verifies, so it is
    [False] on a malformed key, a malformed signature and a bad signature. *)
Theorem C9_verify_signature_total {L : Libraries} (data signature public_key : string) :
  ∃ b : bool,
    verify_signature data signature public_key = Ok b
    ∧ (b = true ↔
       ∃ raw vk sig msg,
         b64decode public_key = Ok raw ∧ VerifyKey raw = Ok vk
         ∧ b64decode signature = Ok sig ∧ VerifyKey_verify vk data sig = Ok msg).
Proof.
  unfold verify_signature, verify_signature_body, try_except.
  destruct (b64decode public_key) as [raw|e1] eqn:H1; simpl.
  2: { exists false. split; [done|]. split; [done|]. by intros (?&?&?&?&?&?). }
  destruct (VerifyKey raw) as [vk|e2] eqn:H2; simpl.
  2: { exists false. split; [done|]. split; [done|].
       intros (?&?&?&?&[= <-]&?&?). congruence. }
  destruct (b64decode signature) as [sig|e3] eqn:H3; simpl.
  2: { exists false. split; [done|]. split; [done|].
       intros (?&?&?&?&?&?&?&?). congruence. }
  destruct (VerifyKey_verify vk data sig) as [msg|e4] eqn:H4; simpl.
  - exists true. split; [done|]. split; [|done]. intros _. by exists raw, vk, sig, msg.
  - exists false. split; [done|]. split; [done|].
    intros (?&?&?&?&[= <-]&?&[= <-]&?). congruence.
Qed.

(** The empty key text, a signature under another key and a signature on
    other data all give [False]; the signature of the data under the key gives
    [True]. *)
Lemma C9_verify_signature_total_witness :
  (∃ b, verify_signature (L := Scenario.plain_libs) "data" "VK_a:data" "" = Ok b)
  ∧ verify_signature (L := Scenario.plain_libs) "data" "VK_a:data" "" = Ok false
  ∧ verify_signature (L := Scenario.plain_libs) "data" "VK_b:data" "VK_a" = Ok false
  ∧ verify_signature (L := Scenario.plain_libs) "data" "VK_a:other" "VK_a" = Ok false
  ∧ verify_signature (L := Scenario.plain_libs) "data" "VK_a:data" "VK_a" = Ok true.
Proof.
  split.
  - destruct (C9_verify_signature_total (L := Scenario.plain_libs) "data" "VK_a:data" "")
      as (b & Hb & _).
    by exists b.
  - repeat split; reflexivity.
Defined.

(** ** C4: the order of the outbound queue *)

Lemma message_eqb_msg_id (m m' : TacticalMessage.t) :
  TacticalMessage.msg_id m ≠ TacticalMessage.msg_id m' → message_eqb m m' = false.
Proof.
  intros Hne. unfold message_eqb.
  destruct (String.eqb_spec (TacticalMessage.msg_id m) (TacticalMessage.msg_id m'));
    [done|]. reflexivity.
Qed.

(** Two different messages of one priority cannot be compared. *)
Lemma item_lt_equal_priority (p : Z) (m m' : TacticalMessage.t) :
  message_eqb m m' = false → item_lt (p, m) (p, m') = Raise TypeError.
Proof. intros Hne. unfold item_lt. simpl. by rewrite Z.eqb_refl, Hne. Qed.

(** Different priorities are compared as numbers, the messages are not looked
    at. *)
Lemma item_lt_priority (a b : Z) (m m' : TacticalMessage.t) :
  a ≠ b → item_lt (a, m) (b, m') = Ok (a <? b).
Proof.
  intros Hne. unfold item_lt. simpl.
  by destruct (Z.eqb_spec a b).
Qed.

(** The second [put] of a priority that is already queued raises, and leaves
    the new tuple at the end of the list. *)
Lemma heappush_equal_priority (p : Z) (m m' : TacticalMessage.t) :
  message_eqb m' m = false →
  heappush [(p, m)] (p, m') = ([(p, m); (p, m')], Raise TypeError).
Proof.
  intros Hne. unfold heappush, _siftdown. simpl.
  by rewrite (item_lt_equal_priority p m' m Hne).
Qed.

(** A more urgent message put after a less urgent one goes to the root, and
    is the one that the next [get] returns. *)
Lemma heappush_overtakes (a b : Z) (m m' : TacticalMessage.t) :
  a < b →
  heappush [(b, m')] (a, m) = ([(a, m); (b, m')], Ok tt)
  ∧ heappop [(a, m); (b, m')] = ([(b, m')], Ok (a, m)).
Proof.
  intros Hlt. split.
  - unfold heappush, _siftdown. simpl.
    rewrite (item_lt_priority a b m m') by lia.
    by rewrite (proj2 (Z.ltb_lt a b) Hlt).
  - reflexivity.
Qed.

(** A less urgent message put after a more urgent one stays behind it. *)
Lemma heappush_stays_behind (a b : Z) (m m' : TacticalMessage.t) :
  a < b →
  heappush [(a, m)] (b, m') = ([(a, m); (b, m')], Ok tt).
Proof.
  intros Hlt. unfold heappush, _siftdown. simpl.
  rewrite (item_lt_priority b a m' m) by lia.
  by rewrite (proj2 (Z.ltb_ge b a) ltac:(lia)).
Qed.

(** On any node whose queue holds one message, sending another message of
    the same priority fails with [TypeError]; the store has the message, the
    log has the failure. *)
Lemma send_message_equal_priority_raises {L : Libraries}
    (msg_id : string) (now : Q) (topic : string) (payload : pydict)
    (recipients : list string) (priority : Z) (classification : string)
    (queued : TacticalMessage.t) (st : node) :
  available (database st) = true →
  outbox st = [(priority, queued)] →
  msg_id ≠ TacticalMessage.msg_id queued →
  log (send_message msg_id now topic payload recipients priority classification st)
  = log st ++ [LogError "Failed to send message" TypeError].
Proof.
  intros Ha Hq Hid. unfold send_message.
  rewrite (store_message_ok _ _ Ha). cbn [set_database outbox]. rewrite Hq.
  rewrite heappush_equal_priority; [done|].
  by apply message_eqb_msg_id.
Qed.

(** The overtake of the spec (S2), on the node: ROUTINE then FLASH are both
    queued and go out as FLASH, ROUTINE. *)
Lemma priority_overtake_on_node :
  log (Scenario.three_turns Scenario.overtake_queued)
  = [LogInfo "Queued message M1 for transmission";
     LogInfo "Queued message M2 for transmission";
     LogDebug "Transmitted message M2";
     LogDebug "Transmitted message M1"].
Proof. vm_compute. reflexivity. Qed.

(** C4 fails on the code for messages of one priority.  Three messages of
    priority 2 are sent before the transmit loop takes any: the second and the
    third [put] raise [TypeError] inside [send_message]; the first [get] raises
    [TypeError] after it has taken the oldest message off the list, so that
    message is never handed to the transports; the two later messages go
    out. *)
Theorem C4_equal_priority_oldest_lost :
  log Scenario.three_queued
  = [LogInfo "Queued message m1 for transmission";
     LogError "Failed to send message" TypeError;
     LogError "Failed to send message" TypeError]
  ∧ outbox Scenario.three_queued
    = [(2, Scenario.sent_message "m1" 11 2); (2, Scenario.sent_message "m2" 12 2);
       (2, Scenario.sent_message "m3" 13 2)]
  ∧ log (Scenario.three_turns Scenario.three_queued)
    = log Scenario.three_queued
      ++ [LogError "Transmission error" TypeError;
          LogDebug "Transmitted message m2";
          LogDebug "Transmitted message m3"]
  ∧ wire (Scenario.three_turns Scenario.three_queued)
    = [("batman", Scenario.frame (Scenario.sent_message "m2" 12 2));
       ("batman", Scenario.frame (Scenario.sent_message "m3" 13 2))]
  ∧ outbox (Scenario.three_turns Scenario.three_queued) = [].
Proof. vm_compute. repeat split; reflexivity. Qed.

(** ** C6: geofence evaluation *)

Section geofence_properties.
Context {L : Libraries}.

Lemma violating_type_spec (t : string) :
  violating_type t = true ↔ t = "HOSTILE" ∨ t = "RESTRICTED".
Proof.
  unfold violating_type. rewrite bool_decide_eq_true.
  rewrite !elem_of_cons, elem_of_nil. tauto.
Qed.

Lemma contains_interior (polygon : Polygon.t) (point : coord) :
  contains polygon point = true ↔ locate_in_polygon point polygon = INTERIOR.
Proof. unfold contains. by destruct (locate_in_polygon point polygon). Qed.

Lemma elem_of_scan_zones (point : coord) (rows : list GeofenceZone.t)
    (violations : list Violation.t) (v : Violation.t) :
  (∀ z, z ∈ rows → is_ok (wkt_loads (GeofenceZone.polygon z)) = true) →
  v ∈ scan_zones point rows violations
  ↔ v ∈ violations
    ∨ ∃ z, z ∈ rows ∧ v = Violation.of_zone z ∧ violated_by point z.
Proof.
  revert violations. induction rows as [|z rows IH]; intros violations Hparse.
  - simpl. split; [by left|]. intros [?|(z & Hz & _)]; [done|].
    by apply elem_of_nil in Hz.
  - simpl. pose proof (Hparse z (list_elem_of_here _ _)) as Hz.
    destruct (wkt_loads (GeofenceZone.polygon z)) as [polygon|] eqn:Hwkt; [|done].
    rewrite IH by (intros z' Hz'; apply Hparse; by right).
    destruct (violating_type (GeofenceZone.zone_type z) && contains polygon point)
      eqn:Hviol.
    + apply andb_true_iff in Hviol as [Ht Hc].
      apply violating_type_spec in Ht. apply contains_interior in Hc.
      rewrite elem_of_app, list_elem_of_singleton. split.
      * intros [[?| ->]|(z' & Hz' & ? & ?)].
        -- by left.
        -- right. exists z. split; [apply list_elem_of_here|]. split; [done|].
           split; [done|]. by exists polygon.
        -- right. exists z'. split; [by right|done].
      * intros [?|(z' & Hz' & Hv & Hviol)]; [by left; left|].
        apply elem_of_cons in Hz' as [->|Hz']; [by left; right|].
        right. by exists z'.
    + split.
      * intros [?|(z' & Hz' & ? & ?)]; [by left|].
        right. exists z'. split; [by right|done].
      * intros [?|(z' & Hz' & Hv & Hviol')]; [by left|].
        apply elem_of_cons in Hz' as [->|Hz']; [|right; by exists z'].
        exfalso. destruct Hviol' as (Ht & polygon' & Hwkt' & Hloc).
        rewrite Hwkt in Hwkt'. injection Hwkt' as <-.
        apply violating_type_spec in Ht. apply contains_interior in Hloc.
        by rewrite Ht, Hloc in Hviol.
Qed.
End geofence_properties.

(** *** The square of scenario S6, at every point *)

Lemma Qltb_true (a b : Q) : (a < b)%Q → Qltb a b = true.
Proof. apply Qltb_lt. Qed.

Lemma Qltb_false (a b : Q) : (b <= a)%Q → Qltb a b = false.
Proof.
  intros H. destruct (Qltb a b) eqn:E; [|done].
  apply Qltb_lt in E. by apply Qlt_not_le in E.
Qed.

Lemma Qleb_true (a b : Q) : (a <= b)%Q → Qleb a b = true.
Proof. apply Qle_bool_iff. Qed.

Lemma Qleb_false (a b : Q) : (b < a)%Q → Qleb a b = false.
Proof.
  intros H. destruct (Qleb a b) eqn:E; [|done].
  apply Qle_bool_iff in E. by apply Qlt_not_le in H.
Qed.

Lemma Qeqb_true (a b : Q) : (a == b)%Q → Qeqb a b = true.
Proof. apply Qeq_bool_iff. Qed.

Lemma Qeqb_false (a b : Q) : ¬ (a == b)%Q → Qeqb a b = false.
Proof.
  intros H. destruct (Qeqb a b) eqn:E; [|done]. by apply Qeq_bool_iff in E.
Qed.

Lemma sgn_Qnum_pos (q : Q) : (0 < q)%Q → Z.sgn (Qnum q) = 1.
Proof. destruct q as [n d]. unfold Qlt. simpl. intros H. apply Z.sgn_pos. lia. Qed.

Lemma sgn_Qnum_neg (q : Q) : (q < 0)%Q → Z.sgn (Qnum q) = -1.
Proof. destruct q as [n d]. unfold Qlt. simpl. intros H. apply Z.sgn_neg. lia. Qed.

Lemma sgn_Qnum_zero (q : Q) : (q == 0)%Q → Z.sgn (Qnum q) = 0.
Proof. destruct q as [n d]. unfold Qeq. simpl. intros H. apply Z.sgn_null_iff. lia. Qed.

(** Settle every comparison of the goal from the linear facts at hand. *)
Ltac decide_tests :=
  repeat first
    [ match goal with
      | |- context [Qltb ?a ?b] =>
          first [rewrite (Qltb_true a b) by lra | rewrite (Qltb_false a b) by lra]
      | |- context [Qleb ?a ?b] =>
          first [rewrite (Qleb_true a b) by lra | rewrite (Qleb_false a b) by lra]
      | |- context [Qeqb ?a ?b] =>
          first [rewrite (Qeqb_true a b) by lra | rewrite (Qeqb_false a b) by lra]
      | |- context [orientation_index ?a ?b ?c] =>
          unfold orientation_index; cbn [fst snd];
          first [rewrite sgn_Qnum_pos by lra
                | rewrite sgn_Qnum_neg by lra
                | rewrite sgn_Qnum_zero by lra]
      end
    | progress cbn [fst snd andb orb negb Z.eqb Z.opp Pos.eqb Nat.odd Nat.even] ].

Lemma count_ring_cons (p prev cur : coord) (rest : list coord) (c c' : counter) :
  countSegment p cur prev c = c' →
  count_ring p (prev :: cur :: rest) c
  = if c'.2 then c' else count_ring p (cur :: rest) c'.
Proof. intros <-. reflexivity. Qed.

(** One segment of the ring: its effect on the counter is computed, then the
    scan moves on. *)
Ltac count_segment :=
  erewrite count_ring_cons;
  [|unfold countSegment; cbn [fst snd]; decide_tests; reflexivity];
  cbn [fst snd].

(** A point is in the interior of the square when it is strictly between the
    sides, on its boundary when it is on a side or a corner, and outside
    otherwise. *)
Lemma square_locate (x y : Q) :
  locate_in_polygon (x, y) Scenario.square =
    if Qltb 0 x && Qltb x 10 && Qltb 0 y && Qltb y 10 then INTERIOR
    else if Qleb 0 x && Qleb x 10 && Qleb 0 y && Qleb y 10 then BOUNDARY
    else EXTERIOR.
Proof.
  unfold locate_in_polygon, Scenario.square, locate_in_ring.
  cbn [Polygon.shell Polygon.holes locate_in_holes].
  destruct (Q_dec x 0) as [[Hx0|Hx0]|Hx0], (Q_dec x 10) as [[Hx1|Hx1]|Hx1];
    try (exfalso; lra);
  destruct (Q_dec y 0) as [[Hy0|Hy0]|Hy0], (Q_dec y 10) as [[Hy1|Hy1]|Hy1];
    try (exfalso; lra).
  all: repeat count_segment.
  all: decide_tests.
  all: reflexivity.
Qed.

Lemma square_contains (x y : Q) :
  contains Scenario.square (x, y) = true ↔ (0 < x < 10 ∧ 0 < y < 10)%Q.
Proof.
  unfold contains. rewrite square_locate.
  destruct (Qltb 0 x) eqn:H1, (Qltb x 10) eqn:H2, (Qltb 0 y) eqn:H3,
    (Qltb y 10) eqn:H4; cbn [andb];
    repeat match goal with
           | H : Qltb _ _ = true |- _ => apply Qltb_lt in H
           | H : Qltb _ _ = false |- _ =>
               apply not_true_iff_false in H; rewrite Qltb_lt in H
           end;
    split; try tauto;
    try (intros _; tauto);
    destruct (Qleb 0 x && Qleb x 10 && Qleb 0 y && Qleb y 10); done.
Qed.

(** Zone Z is reported for the positions strictly inside the square and for
    no others. *)
Lemma Z_zone_violations (lat lon : Q) :
  check_geofence_violations (L := Scenario.geo_libs) (Scenario.at_ lat lon)
    Scenario.zone_db
  = if contains Scenario.square (lon, lat) then [Violation.of_zone Scenario.Z_zone]
    else [].
Proof.
  unfold check_geofence_violations, Scenario.zone_db. cbn [available geofences].
  change (filter _ [Scenario.Z_zone]) with [Scenario.Z_zone].
  cbn [scan_zones]. change (wkt_loads _) with (Ok Scenario.square).
  change (violating_type _) with true. cbn [andb Scenario.at_ Position.lon Position.lat].
  by destruct (contains Scenario.square (lon, lat)).
Qed.

(** C6, as stated, fails on the edge: the point [(lon=5, lat=0)] lies on the
    side of zone Z from [(0,0)] to [(10,0)] and is not reported, and neither
    are a point on each other side and a corner. *)
Lemma C6_edge_point_not_reported :
  check_geofence_violations (L := Scenario.geo_libs) (Scenario.at_ 0 5) Scenario.zone_db = []
  ∧ check_geofence_violations (L := Scenario.geo_libs) (Scenario.at_ 10 5) Scenario.zone_db = []
  ∧ check_geofence_violations (L := Scenario.geo_libs) (Scenario.at_ 5 0) Scenario.zone_db = []
  ∧ check_geofence_violations (L := Scenario.geo_libs) (Scenario.at_ 5 10) Scenario.zone_db = []
  ∧ check_geofence_violations (L := Scenario.geo_libs) (Scenario.at_ 10 10) Scenario.zone_db = []
  ∧ locate_in_polygon (5, 0)%Q Scenario.square = BOUNDARY.
Proof. vm_compute. repeat split; reflexivity. Qed.

(** The two positions of scenario S6. *)
Lemma S6_geofence :
  check_geofence_violations (L := Scenario.geo_libs) (Scenario.at_ 5 5) Scenario.zone_db
  = [Violation.of_zone Scenario.Z_zone]
  ∧ check_geofence_violations (L := Scenario.geo_libs) (Scenario.at_ 11 11) Scenario.zone_db
    = [].
Proof. vm_compute. split; reflexivity. Qed.

(** The zones that [check_geofence_violations] reports, on any store that
    answers and whose active zones all parse. *)
Lemma geofence_violations_exact {L : Libraries}
    (position : Position.t) (d : db) (v : Violation.t) :
  available d = true →
  (∀ z, z ∈ geofences d → GeofenceZone.active z = true →
        is_ok (wkt_loads (GeofenceZone.polygon z)) = true) →
  v ∈ check_geofence_violations position d
  ↔ ∃ z, z ∈ geofences d
      ∧ v = Violation.of_zone z
      ∧ GeofenceZone.active z = true
      ∧ (GeofenceZone.zone_type z = "HOSTILE" ∨ GeofenceZone.zone_type z = "RESTRICTED")
      ∧ ∃ polygon, wkt_loads (GeofenceZone.polygon z) = Ok polygon
          ∧ locate_in_polygon (Position.lon position, Position.lat position) polygon
            = INTERIOR.
Proof.
  intros Ha Hparse. unfold check_geofence_violations. rewrite Ha.
  rewrite elem_of_scan_zones.
  2: { intros z Hz. apply list_elem_of_filter in Hz as [Hact Hz]. by apply Hparse. }
  split.
  - intros [Hnil|(z & Hz & Hv & Ht & Hpoly)]; [by apply elem_of_nil in Hnil|].
    apply list_elem_of_filter in Hz as [Hact Hz]. by exists z.
  - intros (z & Hz & Hv & Hact & Ht & Hpoly). right. exists z.
    split; [by apply list_elem_of_filter|]. done.
Qed.

(** C6, amended: when the store answers and the text of every active zone
    parses, [check_geofence_violations] returns exactly the active zones whose
    type is HOSTILE or RESTRICTED and whose polygon has the point in its
    interior; a point on an edge or a corner of the polygon is not inside.
    For the HOSTILE square zone Z of scenario S6 the positions reported are
    those strictly inside the square: [(lat=5, lon=5)] yields [[Z]],
    [(lat=11, lon=11)] yields [[]]. *)
Theorem C6_geofence_violations_interior :
  (∀ (L : Libraries) (position : Position.t) (d : db) (v : Violation.t),
     available d = true →
     (∀ z, z ∈ geofences d → GeofenceZone.active z = true →
           is_ok (wkt_loads (GeofenceZone.polygon z)) = true) →
     v ∈ check_geofence_violations position d
     ↔ ∃ z, z ∈ geofences d
         ∧ v = Violation.of_zone z
         ∧ GeofenceZone.active z = true
         ∧ (GeofenceZone.zone_type z = "HOSTILE"
            ∨ GeofenceZone.zone_type z = "RESTRICTED")
         ∧ ∃ polygon, wkt_loads (GeofenceZone.polygon z) = Ok polygon
             ∧ locate_in_polygon (Position.lon position, Position.lat position)
                 polygon = INTERIOR)
  ∧ (∀ lat lon : Q,
       check_geofence_violations (L := Scenario.geo_libs) (Scenario.at_ lat lon)
         Scenario.zone_db = [Violation.of_zone Scenario.Z_zone]
       ↔ (0 < lon < 10 ∧ 0 < lat < 10)%Q)
  ∧ check_geofence_violations (L := Scenario.geo_libs) (Scenario.at_ 5 5)
      Scenario.zone_db = [Violation.of_zone Scenario.Z_zone]
  ∧ check_geofence_violations (L := Scenario.geo_libs) (Scenario.at_ 11 11)
      Scenario.zone_db = [].
Proof.
  split; [intros L; apply geofence_violations_exact|]. split; [|apply S6_geofence].
  intros lat lon. rewrite Z_zone_violations, <- square_contains.
  by destruct (contains Scenario.square (lon, lat)).
Qed.

Lemma C6_geofence_violations_interior_witness :
  Violation.of_zone Scenario.Z_zone
  ∈ check_geofence_violations (L := Scenario.geo_libs) (Scenario.at_ 5 5) Scenario.zone_db.
Proof.
  apply (proj1 C6_geofence_violations_interior Scenario.geo_libs
           (Scenario.at_ 5 5) Scenario.zone_db (Violation.of_zone Scenario.Z_zone)).
  - reflexivity.
  - intros z Hz _. apply list_elem_of_singleton in Hz as ->. reflexivity.
  - exists Scenario.Z_zone. split; [apply list_elem_of_here|].
    split; [reflexivity|]. split; [reflexivity|]. split; [by left|].
    exists Scenario.square. split; reflexivity.
Defined.

(** ** C3: the verify key of a known node *)

Section codec_properties.
Context {L : Libraries}.

(** A frame is decoded only when its signature verifies against the verify
    key that the frame itself carries. *)
Lemma decode_frame_verified (data : string) (m : TacticalMessage.t)
    (sid : NodeIdentity.t) :
  decode_frame data = Ok (Decoded m sid) →
  ∃ input s, verify_signature input s (NodeIdentity.verify_key sid) = Ok true.
Proof.
  unfold decode_frame. intros Hdec.
  destruct (json_loads data) as [env|]; simpl in Hdec; [|done].
  destruct (as_dict env) as [envd|]; simpl in Hdec; [|done].
  destruct (dict_item "sender_identity" envd) as [sv|]; simpl in Hdec; [|done].
  destruct (as_dict sv) as [sender_dict|]; simpl in Hdec; [|done].
  destruct (NodeIdentity.of_kwargs sender_dict) as [sid'|]; simpl in Hdec; [|done].
  destruct (dict_item "message" envd) as [mv|]; simpl in Hdec; [|done].
  destruct (as_dict mv) as [message_data|]; simpl in Hdec; [|done].
  destruct (negb (json_truthy (default JNull (dict_get "signature" message_data))));
    [done|].
  destruct (dict_item "version" envd) as [version|]; simpl in Hdec; [|done].
  destruct (default JNull (dict_get "signature" message_data)) as [| | | |s| |];
    simpl in Hdec; try done.
  match type of Hdec with
  | context [verify_signature ?input s ?key] =>
      destruct (verify_signature input s key) as [[|]|] eqn:Hver; simpl in Hdec;
        try done; exists input, s
  end.
  destruct (TacticalMessage.of_kwargs message_data) as [m'|]; simpl in Hdec; [|done].
  by injection Hdec as _ <-.
Qed.

Lemma decode_message_accepts (now : Q) (st : node) (data : string)
    (m : TacticalMessage.t) (sid : NodeIdentity.t) :
  decode_frame data = Ok (Decoded m sid) →
  available (database st) = true →
  ∃ d, upsert_node now sid (database st) = Ok d
    ∧ _decode_message now st data = (Some (m, sid), set_database d st).
Proof.
  intros Hdec Ha. unfold _decode_message. rewrite Hdec.
  destruct (upsert_node_ok now sid (database st) Ha) as (d & Hd & _).
  exists d. by rewrite Hd.
Qed.
End codec_properties.

(** C3, as stated, fails: the store of the receiver records the verify key
    VK_a for node [a]; a frame that carries VK_m for node [a], signed under
    VK_m, is decoded, the row of [a] now records VK_m, and the message reaches
    the inbox and the web clients. *)
Lemma C3_changed_verify_key_accepted :
  NodeRow.verify_key <$> nodes (database Scenario.tracking_node) = ["VK_a"]
  ∧ NodeIdentity.node_id Scenario.mallory = "a"
  ∧ NodeIdentity.verify_key Scenario.mallory = "VK_m"
  ∧ (let r := _decode_message (L := Scenario.rekey_libs) 21 Scenario.tracking_node
                Scenario.rekey_frame in
     r.1 = Some (Scenario.rekey_decoded, Scenario.mallory)
     ∧ NodeRow.node_id <$> nodes (database r.2) = ["a"]
     ∧ NodeRow.verify_key <$> nodes (database r.2) = ["VK_m"])
  ∧ (let st := receive_datagram (L := Scenario.rekey_libs) 21 Scenario.rekey_frame
                 Scenario.tracking_node in
     snd <$> inbox st = [Scenario.mallory]
     ∧ length (ws_out st) = 1%nat
     ∧ length (messages (database st)) = 1%nat).
Proof. vm_compute. repeat split; reflexivity. Qed.

(** C3, amended: an inbound frame whose signature verifies against the verify
    key carried in its own [sender_identity] is accepted whatever verify key
    the store records for that [node_id]; the node row of that [node_id] is
    replaced by the identity of the frame, so the stored verify key of a
    [node_id] is the one of the last accepted frame; the rows of the other
    nodes are untouched. *)
Theorem C3_accepted_frame_sets_verify_key {L : Libraries} (now : Q) (st : node)
    (data : string) (m : TacticalMessage.t) (sid : NodeIdentity.t) :
  decode_frame data = Ok (Decoded m sid) →
  available (database st) = true →
  (∃ input s, verify_signature input s (NodeIdentity.verify_key sid) = Ok true)
  ∧ ∃ st', _decode_message now st data = (Some (m, sid), st')
      ∧ (∃ r, r ∈ nodes (database st')
           ∧ NodeRow.node_id r = NodeIdentity.node_id sid)
      ∧ (∀ r, r ∈ nodes (database st') →
              NodeRow.node_id r = NodeIdentity.node_id sid →
              NodeRow.verify_key r = NodeIdentity.verify_key sid
              ∧ NodeRow.identity r = sid)
      ∧ (∀ r, NodeRow.node_id r ≠ NodeIdentity.node_id sid →
              r ∈ nodes (database st') ↔ r ∈ nodes (database st)).
Proof.
  intros Hdec Ha. split; [by eapply decode_frame_verified|].
  unfold _decode_message. rewrite Hdec.
  destruct (upsert_node_ok now sid (database st) Ha)
    as (d & Hd & _ & _ & _ & _ & row & Hnodes & Hid & Hvk & Hrow).
  rewrite Hd. eexists. split; [done|]. simpl. rewrite Hnodes. split; [|split].
  - exists row. split; [|done]. apply elem_of_insert_or_replace. by right.
  - intros r Hr Hrid. rewrite <- Hid in Hrid.
    by rewrite (insert_or_replace_at_key NodeRow.node_id _ _ _ Hr Hrid).
  - intros r Hne. apply (insert_or_replace_other NodeRow.node_id). by rewrite Hid.
Qed.

Lemma C3_accepted_frame_sets_verify_key_witness :
  ∃ st', _decode_message (L := Scenario.rekey_libs) 21 Scenario.tracking_node
           Scenario.rekey_frame
         = (Some (Scenario.rekey_decoded, Scenario.mallory), st').
Proof.
  destruct (C3_accepted_frame_sets_verify_key (L := Scenario.rekey_libs) 21
              Scenario.tracking_node Scenario.rekey_frame
              Scenario.rekey_decoded Scenario.mallory)
    as (_ & st' & Hst' & _).
  - vm_compute. reflexivity.
  - reflexivity.
  - by exists st'.
Defined.

(** ** C1: a frame of [_encode_message] given to [_decode_message] *)

Lemma string_length_app (a b : string) :
  String.length (a +:+ b) = (String.length a + String.length b)%nat.
Proof. induction a as [|c a IH]; simpl; [done|]. by rewrite IH. Qed.

Lemma NodeIdentity_of_kwargs_asdict (i : NodeIdentity.t) :
  NodeIdentity.of_kwargs (NodeIdentity.asdict i) = Ok i.
Proof. destruct i. reflexivity. Qed.

Lemma dict_set_signature (m : TacticalMessage.t) (s : string) :
  dict_set "signature" (JStr s) (TacticalMessage.asdict m)
  = TacticalMessage.asdict_body m ++ [("signature", JStr s)].
Proof. reflexivity. Qed.

Lemma dict_get_signature (m : TacticalMessage.t) (v : json) :
  dict_get "signature" (TacticalMessage.asdict_body m ++ [("signature", v)]) = Some v.
Proof. reflexivity. Qed.

(** [message_copy.pop("signature", None)] takes the key away: what is left
    is the dict of the other eleven fields. *)
Lemma dict_pop_signature (m : TacticalMessage.t) (v : json) :
  dict_pop "signature" (TacticalMessage.asdict_body m ++ [("signature", v)])
  = TacticalMessage.asdict_body m.
Proof. reflexivity. Qed.

(** [env["version"]], [env["sender_identity"]] and [env["message"]] on a dict
    with these three keys *)
Lemma envelope_version (v s m : json) :
  dict_item "version" [("version", v); ("sender_identity", s); ("message", m)] = Ok v.
Proof. reflexivity. Qed.

Lemma envelope_sender_identity (v s m : json) :
  dict_item "sender_identity" [("version", v); ("sender_identity", s); ("message", m)]
  = Ok s.
Proof. reflexivity. Qed.

Lemma envelope_message (v s m : json) :
  dict_item "message" [("version", v); ("sender_identity", s); ("message", m)] = Ok m.
Proof. reflexivity. Qed.

Section roundtrip.
Context {L : Libraries}.

(** The bytes that the receiver verifies are not the bytes that the sender
    signed: the sender's have the member [signature] with the value [null],
    the receiver's do not have the member. *)
Lemma signing_input_differs (i : NodeIdentity.t) (m : TacticalMessage.t) :
  TacticalMessage.signature m = None →
  dumps_compact (envelope i (TacticalMessage.asdict_body m)) ≠ signing_input i m.
Proof.
  intros Hsig Heq. apply (f_equal String.length) in Heq.
  unfold signing_input, TacticalMessage.asdict in Heq. rewrite Hsig in Heq.
  unfold dumps_compact, envelope, TacticalMessage.asdict_body in Heq.
  cbn [json_dumps map String.concat app fst snd TacticalMessage.json_of_opt_str] in Heq.
  rewrite !string_length_app in Heq. simpl in Heq. lia.
Qed.

(** What the body of [_decode_message] does with the signed envelope of a
    message: it takes one of its two [return None], or raises. *)
Lemma decode_signed_envelope (i : NodeIdentity.t) (m : TacticalMessage.t)
    (s data : string) :
  TacticalMessage.signature m = None →
  json_loads data = Ok (signed_envelope i m s) →
  (∀ input, verify_signature input s (NodeIdentity.verify_key i) = Ok true →
            input = signing_input i m) →
  decode_frame data = Ok Unsigned
  ∨ decode_frame data = Ok Unverified
  ∨ ∃ e, decode_frame data = Raise e.
Proof.
  intros Hsig Hparse Hsound. unfold decode_frame. rewrite Hparse.
  unfold signed_envelope. rewrite dict_set_signature.
  unfold envelope. cbn [as_dict mbind result_bind].
  rewrite envelope_version, envelope_sender_identity, envelope_message.
  cbn [as_dict mbind result_bind].
  rewrite NodeIdentity_of_kwargs_asdict. cbn [mbind result_bind].
  rewrite dict_get_signature, dict_pop_signature.
  cbn [default from_option json_truthy id].
  destruct (negb (negb (String.eqb s ""))); [by left|].
  pose proof (Hsound (dumps_compact (envelope i (TacticalMessage.asdict_body m))))
    as Hinput.
  unfold envelope in Hinput.
  destruct (verify_signature _ s (NodeIdentity.verify_key i)) as [[|]|e].
  - destruct (signing_input_differs i m Hsig). by apply Hinput.
  - right. by left.
  - right. right. by exists e.
Qed.
End roundtrip.

(** C1 fails on the code.  For every message that [send_message] builds (its
    [signature] is [None]) and every signature scheme in which the signature
    of the sender verifies for nothing but the bytes that were signed, the
    frame that [_encode_message] emits is refused by [_decode_message] on
    every receiver: the result is [None] and the store of the receiver is
    left as it was. *)
Theorem C1_emitted_frame_rejected {L : Libraries} (st rst : node) (now : Q)
    (m : TacticalMessage.t) (s : string) :
  TacticalMessage.signature m = None →
  sign_message (keys st) (signing_input (identity st) m) = Ok s →
  json_loads (dumps_compact (signed_envelope (identity st) m s))
    = Ok (signed_envelope (identity st) m s) →
  (∀ input,
     verify_signature input s (NodeIdentity.verify_key (identity st)) = Ok true →
     input = signing_input (identity st) m) →
  let data := dumps_compact (signed_envelope (identity st) m s) in
  _encode_message st m = Ok data
  ∧ (_decode_message now rst data).1 = None
  ∧ database (_decode_message now rst data).2 = database rst.
Proof.
  intros Hsig Hsign Hparse Hsound data. split.
  - unfold _encode_message. by rewrite Hsign.
  - unfold _decode_message.
    destruct (decode_signed_envelope (identity st) m s data Hsig Hparse Hsound)
      as [-> | [-> | [e ->]]]; by split.
Qed.

(** In the scenarios a signature verifies for the signed bytes and for no
    others. *)
Lemma scenario_verify_sound (frames : list (string * json))
    (zones : list (string * Polygon.t)) (key data input : string) :
  verify_signature (L := Scenario.libs frames zones) input (Scenario.sign key data) key
    = Ok true →
  input = data.
Proof.
  unfold verify_signature, verify_signature_body, try_except. simpl.
  unfold Scenario.key_of. destruct (String.eqb key ""); simpl; [done|].
  destruct (String.eqb_spec (Scenario.sign key data) (Scenario.sign key input))
    as [Heq|]; simpl; [|done].
  intros _. unfold Scenario.sign in Heq.
  apply (inj (String.app key)) in Heq. by injection Heq.
Qed.

Lemma scenario_verify_complete (frames : list (string * json))
    (zones : list (string * Polygon.t)) (key data : string) :
  key ≠ "" →
  verify_signature (L := Scenario.libs frames zones) data (Scenario.sign key data) key
    = Ok true.
Proof.
  intros Hkey. unfold verify_signature, verify_signature_body, try_except. simpl.
  unfold Scenario.key_of. destruct (String.eqb_spec key ""); [done|]. simpl.
  by rewrite String.eqb_refl.
Qed.

(** The frame that [alpha] emits for the message of scenario S1 carries a
    signature that is valid for the bytes [alpha] signed, and [beta] drops
    the frame. *)
Lemma C1_emitted_frame_rejected_witness :
  _encode_message (L := Scenario.S1_libs) Scenario.alpha_node Scenario.S1_message
    = Ok Scenario.S1_frame
  ∧ verify_signature (L := Scenario.S1_libs)
      (signing_input (L := Scenario.S1_libs) Scenario.alpha Scenario.S1_message)
      Scenario.S1_signature "VK_a" = Ok true
  ∧ (_decode_message (L := Scenario.S1_libs) 21 Scenario.beta_node Scenario.S1_frame).1
    = None
  ∧ log (_decode_message (L := Scenario.S1_libs) 21 Scenario.beta_node
           Scenario.S1_frame).2
    = [LogWarning "Signature verification failed";
       LogWarning "Message signature verification failed"].
Proof.
  destruct (C1_emitted_frame_rejected (L := Scenario.S1_libs) Scenario.alpha_node
              Scenario.beta_node 21 Scenario.S1_message Scenario.S1_signature)
    as (Henc & Hdec & _).
  - reflexivity.
  - vm_compute. reflexivity.
  - vm_compute. reflexivity.
  - intros input. apply scenario_verify_sound.
  - split; [exact Henc|]. split; [by apply scenario_verify_complete|].
    split; [exact Hdec|]. vm_compute. reflexivity.
Defined.

(** * Properties of the rest of the code *)

(** ** The store: nodes *)

Global Instance later_seen_total : Total later_seen.
Proof.
  intros a b. unfold later_seen.
  destruct (Qlt_le_dec (NodeRow.last_seen a) (NodeRow.last_seen b)) as [H|H].
  - right. by apply Qlt_le_weak.
  - by left.
Qed.

Global Instance later_seen_trans : Transitive later_seen.
Proof. intros a b c Hab Hbc. unfold later_seen in *. by eapply Qle_trans. Qed.

Lemma active_node_rows (now max_age_seconds : Q) (d : db) :
  available d = true →
  ∃ rows, get_active_nodes now max_age_seconds d = Ok (NodeRow.identity <$> rows)
    ∧ (∀ r, r ∈ rows ↔
         r ∈ nodes d
         ∧ (now - max_age_seconds < NodeRow.last_seen r)%Q
         ∧ NodeRow.status r = "ACTIVE")
    ∧ StronglySorted later_seen rows.
Proof.
  intros Ha. unfold get_active_nodes, with_connection. rewrite Ha.
  eexists. split; [done|]. split.
  - intros r. rewrite merge_sort_Permutation, list_elem_of_filter, Qltb_lt. tauto.
  - apply StronglySorted_merge_sort; apply _.
Qed.

(** [get_active_nodes] returns the identities of exactly the node rows seen
    after [now - max_age_seconds] whose status is ACTIVE, the row seen last
    first. *)
Theorem get_active_nodes_exact (now max_age_seconds : Q) (d : db) :
  available d = true →
  ∃ rows, get_active_nodes now max_age_seconds d = Ok (NodeRow.identity <$> rows)
    ∧ (∀ r, r ∈ rows ↔
         r ∈ nodes d
         ∧ (now - max_age_seconds < NodeRow.last_seen r)%Q
         ∧ NodeRow.status r = "ACTIVE")
    ∧ StronglySorted later_seen rows.
Proof. apply active_node_rows. Qed.

Lemma get_active_nodes_exact_witness :
  (∃ rows, get_active_nodes 140 300 Scenario.picture_db = Ok (NodeRow.identity <$> rows)
     ∧ (∀ r, r ∈ rows ↔
          r ∈ nodes Scenario.picture_db
          ∧ (140 - 300 < NodeRow.last_seen r)%Q
          ∧ NodeRow.status r = "ACTIVE")
     ∧ StronglySorted later_seen rows)
  ∧ ∃ l, get_active_nodes 140 300 Scenario.picture_db = Ok l
      ∧ NodeIdentity.node_id <$> l = ["a"; "e"].
Proof.
  split; [apply (get_active_nodes_exact 140 300 Scenario.picture_db); reflexivity|].
  eexists. split; [vm_compute; reflexivity|reflexivity].
Defined.

(** A node is listed by [get_active_nodes] exactly while its last sighting is
    inside the window: after [upsert_node] at time [seen], a query at time
    [now] lists the identity when [now - max_age_seconds < seen], and lists
    nothing under its [node_id] otherwise. *)
Theorem upsert_node_active_window (seen now max_age_seconds : Q)
    (i : NodeIdentity.t) (d d' : db) :
  upsert_node seen i d = Ok d' →
  ∃ l, get_active_nodes now max_age_seconds d' = Ok l
    ∧ ((now - max_age_seconds < seen)%Q → i ∈ l)
    ∧ ((seen <= now - max_age_seconds)%Q →
       ∀ j, j ∈ l → NodeIdentity.node_id j ≠ NodeIdentity.node_id i).
Proof.
  intros Hup. unfold upsert_node, with_connection in Hup.
  destruct (available d) eqn:Ha; [|done]. injection Hup as <-.
  destruct (active_node_rows now max_age_seconds
              (mk_db true
                 (insert_or_replace NodeRow.node_id
                    (NodeRow.mk (NodeIdentity.node_id i) (NodeIdentity.callsign i)
                       (NodeIdentity.unit i) (NodeIdentity.rank i) (NodeIdentity.role i)
                       (NodeIdentity.clearance_level i) (NodeIdentity.pubkey i)
                       (NodeIdentity.verify_key i) seen "ACTIVE" (NodeIdentity.created i))
                    (nodes d))
                 (positions d) (messages d) (geofences d)) eq_refl)
    as (rows & Hget & Hrows & _).
  simpl in Hrows. eexists. split; [exact Hget|]. split.
  - intros Hin. apply list_elem_of_fmap.
    eexists. split; [|apply Hrows; split; [apply elem_of_insert_or_replace; by right|]].
    + by destruct i.
    + done.
  - intros Hout j Hj Hid. apply list_elem_of_fmap in Hj as (r & -> & Hr).
    apply Hrows in Hr as (Hr & Hseen & _).
    assert (r = NodeRow.mk (NodeIdentity.node_id i) (NodeIdentity.callsign i)
                  (NodeIdentity.unit i) (NodeIdentity.rank i) (NodeIdentity.role i)
                  (NodeIdentity.clearance_level i) (NodeIdentity.pubkey i)
                  (NodeIdentity.verify_key i) seen "ACTIVE" (NodeIdentity.created i))
      as -> by by apply (insert_or_replace_at_key NodeRow.node_id _ _ _ Hr).
    simpl in Hseen. by apply Qlt_not_le in Hseen.
Qed.

Lemma upsert_node_active_window_witness :
  ∃ l, get_active_nodes 200 300 (database Scenario.alpha_node) = Ok l ∧ Scenario.alpha ∈ l.
Proof.
  destruct (upsert_node_active_window 10 200 300 Scenario.alpha _initialize_database
              (database Scenario.alpha_node)) as (l & Hl & Hin & _).
  - reflexivity.
  - exists l. split; [exact Hl|]. apply Hin. reflexivity.
Defined.

(** ** The store: positions *)

(** A recent position stored for a [node_id] that has no node row is kept
    back by [get_current_positions]: nothing is returned under that [node_id].
    Once [upsert_node] has written a row for the [node_id], the object built
    from the row of the position, with the grid text as its [timestamp] and
    the timestamp as its [mgrs], is returned, without the position being
    written again. *)
Theorem orphan_position_visible_after_node (p : Position.t) (i : NodeIdentity.t)
    (seen now max_age_seconds : Q) (d d1 d2 : db) :
  Position.node_id p ∉ NodeRow.node_id <$> nodes d →
  upsert_position p d = Ok d1 →
  upsert_node seen i d1 = Ok d2 →
  NodeIdentity.node_id i = Position.node_id p →
  (now - max_age_seconds < Position.timestamp p)%Q →
  (∃ l1, get_current_positions now max_age_seconds d1 = Ok l1
     ∧ ∀ o, o ∈ l1 → LoadedPosition.node_id o ≠ Position.node_id p)
  ∧ (∃ l2, get_current_positions now max_age_seconds d2 = Ok l2
       ∧ LoadedPosition.of_row p ∈ l2).
Proof.
  intros Horphan Hp Hn Hid Hts.
  unfold upsert_position, with_connection in Hp.
  destruct (available d) eqn:Ha; [|done]. injection Hp as <-.
  unfold upsert_node, with_connection in Hn. simpl in Hn. injection Hn as <-.
  split.
  - eexists. split; [reflexivity|]. intros o Ho Heq.
    apply list_elem_of_fmap in Ho as (q & -> & Hq).
    apply elem_of_current_position_rows in Hq as (_ & _ & n & Hin & Hnid & _).
    simpl in Hin. apply Horphan. rewrite <- Heq. cbn [LoadedPosition.node_id
      LoadedPosition.of_row]. rewrite <- Hnid. by apply list_elem_of_fmap_2.
  - eexists. split; [reflexivity|]. apply list_elem_of_fmap_2.
    apply elem_of_current_position_rows. simpl.
    split; [apply elem_of_insert_or_replace; by right|]. split; [done|].
    eexists. split; [apply elem_of_insert_or_replace; by right|]. done.
Qed.

Lemma orphan_position_visible_after_node_witness :
  (∃ l1, get_current_positions 60 300
           (mk_db true [] [Scenario.ghost] [] []) = Ok l1
     ∧ ∀ o, o ∈ l1 → LoadedPosition.node_id o ≠ Position.node_id Scenario.ghost)
  ∧ (∃ l2, get_current_positions 60 300
             (mk_db true
                [NodeRow.mk "ghost" "GHOST" "1PLT" "E-4" "OPERATOR" 3 "EK_g" "VK_g" 55
                   "ACTIVE" 1]
                [Scenario.ghost] [] []) = Ok l2
       ∧ LoadedPosition.of_row Scenario.ghost ∈ l2).
Proof.
  apply (orphan_position_visible_after_node Scenario.ghost
           (NodeIdentity.mk "ghost" "GHOST" "1PLT" "E-4" "OPERATOR" 3 "EK_g" "VK_g" 1)
           55 60 300 _initialize_database).
  - simpl. apply not_elem_of_nil.
  - reflexivity.
  - reflexivity.
  - reflexivity.
  - reflexivity.
Defined.

(** The rows that the join lets through for one position: the position once
    when a node row matches it, no row otherwise. *)
Lemma joined_one_node (cutoff : Q) (ns : list NodeRow.t) (p : Position.t) :
  NoDup (NodeRow.node_id <$> ns) →
  (n ← ns;
   if bool_decide (Position.node_id p = NodeRow.node_id n)
      && Qltb cutoff (Position.timestamp p)
      && bool_decide (NodeRow.status n = "ACTIVE")
   then [p] else []) = []
  ∨ (n ← ns;
     if bool_decide (Position.node_id p = NodeRow.node_id n)
        && Qltb cutoff (Position.timestamp p)
        && bool_decide (NodeRow.status n = "ACTIVE")
     then [p] else []) = [p].
Proof.
  induction ns as [|n ns IH]; [by left|].
  rewrite fmap_cons, NoDup_cons. intros [Hn Hnd]. cbn [mbind list_bind].
  destruct (bool_decide (Position.node_id p = NodeRow.node_id n)) eqn:Hid; cbn [andb].
  - assert ((n' ← ns;
             if bool_decide (Position.node_id p = NodeRow.node_id n')
                && Qltb cutoff (Position.timestamp p)
                && bool_decide (NodeRow.status n' = "ACTIVE")
             then [p] else []) = []) as Hrest.
    { apply bool_decide_eq_true in Hid. clear IH Hnd.
      induction ns as [|n' ns IH]; [done|]. cbn [mbind list_bind].
      rewrite fmap_cons, not_elem_of_cons in Hn. destruct Hn as [Hne Hn].
      rewrite bool_decide_eq_false_2 by congruence. cbn [andb app]. by apply IH. }
    change (list_bind _ _ ?f ns) with (mbind f ns).
    rewrite Hrest, app_nil_r. destruct (_ && _); [by right|by left].
  - change (list_bind _ _ ?f ns) with (mbind f ns). by apply IH.
Qed.

Lemma current_positions_NoDup {L : Libraries}
    (now max_age_seconds : Q) (d : db) (l : list LoadedPosition.t) :
  reachable d →
  get_current_positions now max_age_seconds d = Ok l →
  NoDup (LoadedPosition.node_id <$> l).
Proof.
  intros Hreach Hget. destruct (reachable_keys d Hreach) as (Hn & Hp & _).
  unfold get_current_positions, with_connection in Hget.
  destruct (available d); [|done]. injection Hget as <-.
  rewrite <- list_fmap_compose.
  change (LoadedPosition.node_id ∘ LoadedPosition.of_row) with Position.node_id.
  unfold current_position_rows. rewrite merge_sort_Permutation.
  revert Hp. generalize (positions d). intros ps.
  induction ps as [|p ps IH]; [intros _; apply NoDup_nil_2|].
  rewrite fmap_cons, NoDup_cons. intros [Hp Hps]. cbn [mbind list_bind].
  change (list_bind _ _ ?f ps) with (mbind f ps).
  destruct (joined_one_node (now - max_age_seconds) (nodes d) p Hn) as [Hj|Hj];
    change (list_bind _ _ ?f (nodes d)) with (mbind f (nodes d));
    rewrite Hj; [by apply IH|].
  cbn [app]. rewrite fmap_cons, NoDup_cons. split; [|by apply IH].
  intros Hin. apply Hp. apply list_elem_of_fmap in Hin as (q & -> & Hq).
  apply list_elem_of_bind in Hq as (q' & Hq & Hq').
  apply list_elem_of_bind in Hq as (n & Hq & _).
  destruct (_ && _); [|by apply elem_of_nil in Hq].
  apply list_elem_of_singleton in Hq as ->. by apply list_elem_of_fmap_2.
Qed.

(** In every store that the program can be in, [get_current_positions]
    returns at most one position for a [node_id]. *)
Theorem get_current_positions_one_per_node {L : Libraries}
    (now max_age_seconds : Q) (d : db) (l : list LoadedPosition.t) :
  reachable d →
  get_current_positions now max_age_seconds d = Ok l →
  NoDup (LoadedPosition.node_id <$> l).
Proof. apply current_positions_NoDup. Qed.

Lemma get_current_positions_one_per_node_witness :
  ∃ d l, upsert_position Scenario.P1 (database Scenario.alpha_node) = Ok d
    ∧ get_current_positions 120 300 d = Ok l
    ∧ l = [LoadedPosition.of_row Scenario.P1]
    ∧ NoDup (LoadedPosition.node_id <$> l).
Proof.
  eexists _, _. split; [reflexivity|]. split; [reflexivity|]. split; [reflexivity|].
  eapply (get_current_positions_one_per_node (L := Scenario.plain_libs) 120 300).
  - eapply (reachable_upsert_position (L := Scenario.plain_libs) Scenario.P1
              (database Scenario.alpha_node)); [|reflexivity].
    apply (reachable_upsert_node (L := Scenario.plain_libs) 10 Scenario.alpha
             _initialize_database); [apply reachable_init|reflexivity].
  - reflexivity.
Defined.

(** ** The query of [/api/messages] *)

Global Instance newer_message_total : Total newer_message.
Proof.
  intros a b. unfold newer_message.
  destruct (Qlt_le_dec (MessageRow.timestamp a) (MessageRow.timestamp b)) as [H|H].
  - right. by apply Qlt_le_weak.
  - by left.
Qed.

Global Instance newer_message_trans : Transitive newer_message.
Proof. intros a b c Hab Hbc. unfold newer_message in *. by eapply Qle_trans. Qed.

Lemma elem_of_sql_limit_sorted {A} (R : relation A) (limit : Z) (l : list A) (x y : A) :
  StronglySorted R l →
  x ∈ sql_limit limit l → y ∈ l → y ∉ sql_limit limit l → R x y.
Proof.
  unfold sql_limit. destruct (limit <? 0); [done|].
  intros Hsorted Hx Hy Hny. rewrite <- (take_drop (Z.to_nat limit) l) in Hsorted, Hy.
  apply elem_of_app in Hy as [Hy|Hy]; [done|].
  by eapply StronglySorted_app_1_elem_of.
Qed.

(** The query behind [/api/messages] returns stored rows of the topic asked
    for (all topics when none or the empty topic is given), newest first, at
    most [limit] of them when [limit] is not negative; a row of the topic that
    is left out is not newer than any row returned. *)
Theorem select_messages_newest (topic : option string) (limit : Z) (d : db) :
  available d = true →
  ∃ l, select_messages topic limit d = Ok l
    ∧ (∀ r, r ∈ l → r ∈ messages d ∧ matches_topic topic r)
    ∧ (0 ≤ limit → Z.of_nat (length l) ≤ limit)
    ∧ StronglySorted newer_message l
    ∧ (∀ r r', r ∈ l → r' ∈ messages d → matches_topic topic r' → r' ∉ l →
               (MessageRow.timestamp r' <= MessageRow.timestamp r)%Q).
Proof.
  intros Ha. unfold select_messages, with_connection. rewrite Ha.
  set (rows := match topic_given topic with
               | Some t => filter (λ r, MessageRow.topic r = t) (messages d)
               | None => messages d
               end).
  assert (∀ r, r ∈ rows ↔ r ∈ messages d ∧ matches_topic topic r) as Hrows.
  { intros r. unfold rows, matches_topic. destruct (topic_given topic).
    - rewrite list_elem_of_filter. tauto.
    - tauto. }
  assert (StronglySorted newer_message (merge_sort newer_message rows)) as Hsorted
    by (apply StronglySorted_merge_sort; apply _).
  assert (∀ r, r ∈ sql_limit limit (merge_sort newer_message rows) → r ∈ rows) as Hsub.
  { intros r. unfold sql_limit. destruct (limit <? 0).
    - by rewrite merge_sort_Permutation.
    - intros Hr. apply elem_of_take in Hr as (i & Hi & _).
      rewrite <- (merge_sort_Permutation newer_message). by eapply list_elem_of_lookup_2. }
  eexists. split; [done|]. split; [|split; [|split]].
  - intros r Hr. by apply Hrows, Hsub.
  - intros Hlim. unfold sql_limit. destruct (Z.ltb_spec limit 0); [lia|].
    rewrite length_take. lia.
  - unfold sql_limit. destruct (limit <? 0); [done|].
    rewrite <- (take_drop (Z.to_nat limit) (merge_sort newer_message rows)) in Hsorted.
    by apply StronglySorted_app_1_l in Hsorted.
  - intros r r' Hr Hr' Hmatch Hout.
    apply (elem_of_sql_limit_sorted newer_message limit
             (merge_sort newer_message rows) r r' Hsorted Hr); [|done].
    rewrite merge_sort_Permutation. by apply Hrows.
Qed.

Lemma select_messages_newest_witness :
  ∃ l, select_messages (Some "command") 1
         (mk_db true [] []
            [message_row (L := Scenario.plain_libs) (Scenario.sent_message "m1" 11 2);
             message_row (L := Scenario.plain_libs) (Scenario.sent_message "m2" 12 2);
             message_row (L := Scenario.plain_libs)
               (Scenario.position_message "p1" Scenario.P1 13)] []) = Ok l
    ∧ MessageRow.msg_id <$> l = ["m2"].
Proof.
  destruct (select_messages_newest (Some "command") 1
              (mk_db true [] []
                 [message_row (L := Scenario.plain_libs) (Scenario.sent_message "m1" 11 2);
                  message_row (L := Scenario.plain_libs) (Scenario.sent_message "m2" 12 2);
                  message_row (L := Scenario.plain_libs)
                    (Scenario.position_message "p1" Scenario.P1 13)] []))
    as (l & Hl & _).
  - reflexivity.
  - exists l. split; [exact Hl|].
    vm_compute in Hl. injection Hl as <-. reflexivity.
Defined.

(** A message that [store_message] has written is returned by the query for
    its topic, whenever the limit is negative or not below the number of
    stored rows. *)
Theorem stored_message_is_selected {L : Libraries} (m : TacticalMessage.t)
    (limit : Z) (d d' : db) :
  store_message m d = Ok d' →
  limit < 0 ∨ Z.of_nat (length (messages d')) ≤ limit →
  ∃ l, select_messages (Some (TacticalMessage.topic m)) limit d' = Ok l
    ∧ message_row m ∈ l.
Proof.
  intros Hstore Hlimit. unfold store_message, with_connection in Hstore.
  destruct (available d); [|done]. injection Hstore as <-.
  unfold select_messages, with_connection. cbn [available messages] in *.
  eexists. split; [done|].
  set (rows := match topic_given (Some (TacticalMessage.topic m)) with
               | Some t => filter (λ r, MessageRow.topic r = t) _
               | None => _
               end).
  assert (message_row m ∈ rows) as Hin.
  { unfold rows, topic_given. destruct (String.eqb (TacticalMessage.topic m) "").
    - apply elem_of_insert_or_replace. by right.
    - apply list_elem_of_filter. split; [done|].
      apply elem_of_insert_or_replace. by right. }
  assert (length rows ≤ length (insert_or_replace MessageRow.msg_id (message_row m)
                                  (messages d)))%nat as Hlen.
  { unfold rows. destruct (topic_given _); [apply length_filter|done]. }
  unfold sql_limit. destruct (Z.ltb_spec limit 0).
  - by rewrite merge_sort_Permutation.
  - rewrite take_ge.
    + by rewrite merge_sort_Permutation.
    + rewrite merge_sort_Permutation. lia.
Qed.

Lemma stored_message_is_selected_witness :
  ∃ l, select_messages (Some "command") 100
         (mk_db true [] [] [message_row (L := Scenario.plain_libs) Scenario.X_move] [])
       = Ok l
    ∧ message_row (L := Scenario.plain_libs) Scenario.X_move ∈ l.
Proof.
  apply (stored_message_is_selected (L := Scenario.plain_libs) Scenario.X_move 100
           _initialize_database).
  - reflexivity.
  - right. simpl. lia.
Defined.

(** ** The outbound queue: nothing is lost by a [put] or a [get] that returns *)

(** Moving the entry at [j] to the hole at [i] and the new item to [j] is a
    swap of two entries of the list that has the new item at [i]. *)
Lemma insert_hole_Permutation {A} (l : list A) (i j : nat) (x y : A) :
  (i < length l)%nat → i ≠ j → l !! j = Some y →
  <[j := x]> (<[i := y]> l) ≡ₚ <[i := x]> l.
Proof.
  intros Hi Hne Hj.
  rewrite <- (Permutation_insert_swap (<[i := x]> l) i j x y).
  - by rewrite list_insert_insert_eq.
  - by apply list_lookup_insert_eq.
  - by rewrite list_lookup_insert_ne.
Qed.

Lemma div2_pred_lt (pos : nat) : (0 < pos)%nat → (Nat.div2 (pos - 1) < pos)%nat.
Proof.
  intros Hpos. pose proof (Nat.div2_decr (pos - 1) (pos - 1) ltac:(lia)). lia.
Qed.

Lemma siftdown_loop_Permutation (fuel : nat) (newitem : item) (startpos pos : nat)
    (heap heap' : list item) :
  (pos < length heap)%nat →
  _siftdown_loop fuel newitem startpos pos heap = (heap', Ok tt) →
  heap' ≡ₚ <[pos := newitem]> heap.
Proof.
  revert pos heap. induction fuel as [|fuel IH]; intros pos heap Hpos; [done|].
  cbn [_siftdown_loop]. case_bool_decide as Hlt; [|by intros [= <-]].
  destruct (heap !! Nat.div2 (pos - 1)) as [parent|] eqn:Hparent; [|done].
  destruct (item_lt newitem parent) as [[|]|]; [|by intros [= <-]|done].
  intros Hloop. apply IH in Hloop.
  - rewrite Hloop. apply insert_hole_Permutation; [done| |done].
    pose proof (div2_pred_lt pos). lia.
  - rewrite length_insert. pose proof (div2_pred_lt pos). lia.
Qed.

Lemma siftdown_Permutation (heap heap' : list item) (startpos pos : nat) :
  _siftdown heap startpos pos = (heap', Ok tt) → heap' ≡ₚ heap.
Proof.
  unfold _siftdown. destruct (heap !! pos) as [newitem|] eqn:Hpos; [|done].
  intros Hloop. apply siftdown_loop_Permutation in Hloop.
  - by rewrite Hloop, list_insert_id.
  - by eapply lookup_lt_Some.
Qed.

Lemma siftup_loop_Permutation (fuel endpos pos leaf : nat) (newitem : item)
    (heap heap' : list item) :
  (pos < length heap)%nat →
  _siftup_loop fuel endpos pos heap = (heap', Ok leaf) →
  (leaf < length heap')%nat ∧ <[leaf := newitem]> heap' ≡ₚ <[pos := newitem]> heap.
Proof.
  revert pos heap. induction fuel as [|fuel IH]; intros pos heap Hpos; [done|].
  cbn [_siftup_loop]. case_bool_decide as Hlt; [|by intros [= <- <-]].
  set (pick := if bool_decide (2 * pos + 1 + 1 < endpos)%nat then _ else _).
  destruct pick as [childpos|] eqn:Hpick; [|done].
  destruct (heap !! childpos) as [child|] eqn:Hchild; [|done].
  intros Hloop. apply IH in Hloop as [Hleaf Hloop].
  - split; [done|]. rewrite Hloop. apply insert_hole_Permutation; [done| |done].
    unfold pick in Hpick. case_bool_decide.
    + destruct (heap !! (2 * pos + 1)%nat), (heap !! (2 * pos + 1 + 1)%nat);
        try done.
      destruct (item_lt _ _) as [[|]|]; simplify_eq; lia.
    + simplify_eq. lia.
  - rewrite length_insert. by eapply lookup_lt_Some.
Qed.

Lemma siftup_Permutation (heap heap' : list item) (pos : nat) :
  _siftup heap pos = (heap', Ok tt) → heap' ≡ₚ heap.
Proof.
  unfold _siftup. destruct (heap !! pos) as [newitem|] eqn:Hpos; [|done].
  destruct (_siftup_loop (length heap) (length heap) pos heap) as [heap1 [leaf|]]
    eqn:Hloop; [|done].
  intros Hdown. apply siftdown_Permutation in Hdown.
  apply (siftup_loop_Permutation _ _ _ _ newitem) in Hloop as [_ Hloop].
  - by rewrite Hdown, Hloop, list_insert_id.
  - by eapply lookup_lt_Some.
Qed.

(** A [put] that returns leaves in the queue exactly the entries that were
    there and the new one; a [get] that returns takes exactly the returned
    entry out. *)
Theorem queue_keeps_entries (heap heap' : list item) (x : item) :
  (heappush heap x = (heap', Ok tt) → heap' ≡ₚ x :: heap)
  ∧ (heappop heap = (heap', Ok x) → heap ≡ₚ x :: heap').
Proof.
  split.
  - unfold heappush. intros Hpush. apply siftdown_Permutation in Hpush.
    rewrite Hpush. by rewrite Permutation_app_comm.
  - unfold heappop. destruct (last heap) as [lastelt|] eqn:Hlast; [|done].
    apply last_Some in Hlast as [front ->]. rewrite removelast_last.
    destruct front as [|returnitem front]; [by intros [= <- <-]|].
    destruct (_siftup (<[0%nat := lastelt]> (returnitem :: front)) 0)
      as [heap1 [[]|]] eqn:Hup; [|done].
    intros [= <- <-]. apply siftup_Permutation in Hup. rewrite Hup. cbn.
    apply Permutation_skip. by rewrite Permutation_app_comm.
Qed.

Lemma queue_keeps_entries_witness :
  heappush [(3, Scenario.sent_message "M1" 11 3)] (0, Scenario.sent_message "M2" 12 0)
  = ([(0, Scenario.sent_message "M2" 12 0); (3, Scenario.sent_message "M1" 11 3)], Ok tt)
  ∧ [(0, Scenario.sent_message "M2" 12 0); (3, Scenario.sent_message "M1" 11 3)]
    ≡ₚ [(0, Scenario.sent_message "M2" 12 0); (3, Scenario.sent_message "M1" 11 3)].
Proof.
  split; [reflexivity|].
  apply (proj1 (queue_keeps_entries [(3, Scenario.sent_message "M1" 11 3)] _
                  (0, Scenario.sent_message "M2" 12 0))).
  reflexivity.
Defined.


(** ** The outbound queue: the most urgent entry comes out first *)

Lemma heap_parent_lt (j : nat) : (0 < j)%nat → (heap_parent j < j)%nat.
Proof. apply div2_pred_lt. Qed.

Lemma heap_parent_children (j p : nat) :
  (0 < j)%nat → heap_parent j = p → j = (2 * p + 1)%nat ∨ j = (2 * p + 2)%nat.
Proof.
  unfold heap_parent. intros Hj <-.
  pose proof (Nat.div2_odd (j - 1)) as Hodd.
  destruct (Nat.odd (j - 1)); simpl in Hodd; lia.
Qed.

Lemma heap_parent_left (p : nat) : heap_parent (2 * p + 1) = p.
Proof.
  unfold heap_parent. replace (2 * p + 1 - 1)%nat with (2 * p)%nat by lia.
  apply Nat.div2_double.
Qed.

Lemma heap_parent_right (p : nat) : heap_parent (2 * p + 1 + 1) = p.
Proof.
  unfold heap_parent. replace (2 * p + 1 + 1 - 1)%nat with (S (2 * p))%nat by lia.
  apply Nat.div2_succ_double.
Qed.

Lemma item_lt_distinct (x y : item) : x.1 ≠ y.1 → item_lt x y = Ok (x.1 <? y.1).
Proof. intros Hne. unfold item_lt. by destruct (Z.eqb_spec x.1 y.1). Qed.

(** Filling the hole with the item in hand gives a heap, when the item is less
    urgent than the parent of the hole and more urgent than its children. *)
Lemma fill_hole_ordered (newitem : item) (pos : nat) (heap : list item) :
  (pos < length heap)%nat →
  hole_ordered pos heap →
  (∀ p, (0 < pos)%nat → heap !! heap_parent pos = Some p → p.1 < newitem.1) →
  (∀ j c, (0 < j)%nat → heap_parent j = pos → heap !! j = Some c → newitem.1 < c.1) →
  heap_ordered (<[pos := newitem]> heap).
Proof.
  intros Hpos [HA HB] Hup Hdown j p c Hj Hp Hc.
  destruct (decide (j = pos)) as [->|Hjpos].
  - rewrite list_lookup_insert_eq in Hc by done. injection Hc as <-.
    rewrite list_lookup_insert_ne in Hp by (pose proof (heap_parent_lt pos); lia).
    by apply Hup.
  - rewrite list_lookup_insert_ne in Hc by done.
    destruct (decide (heap_parent j = pos)) as [Hpar|Hpar].
    + rewrite Hpar, list_lookup_insert_eq in Hp by done. injection Hp as <-.
      by eapply Hdown.
    + rewrite list_lookup_insert_ne in Hp by done. by eapply HA.
Qed.

Lemma siftdown_loop_ordered (fuel : nat) (newitem : item) (pos : nat)
    (heap : list item) :
  (pos < fuel)%nat →
  (pos < length heap)%nat →
  fresh_priority newitem pos heap →
  hole_ordered pos heap →
  (∀ j c, (0 < j)%nat → heap_parent j = pos → heap !! j = Some c → newitem.1 < c.1) →
  ∃ heap', _siftdown_loop fuel newitem 0 pos heap = (heap', Ok tt)
    ∧ heap_ordered heap'.
Proof.
  revert pos heap. induction fuel as [|fuel IH]; intros pos heap Hfuel Hpos Hfresh
    [HA HB] HC; [lia|].
  cbn [_siftdown_loop]. case_bool_decide as Hlt.
  2: { eexists. split; [done|]. apply fill_hole_ordered; try done; intros; lia. }
  fold (heap_parent pos). pose proof (heap_parent_lt pos Hlt) as Hparlt.
  destruct (lookup_lt_is_Some_2 heap (heap_parent pos) ltac:(lia)) as [parent Hparent].
  rewrite Hparent.
  rewrite item_lt_distinct
    by (intros Heq; apply (Hfresh (heap_parent pos) parent); [lia|done|done]).
  destruct (Z.ltb_spec newitem.1 parent.1) as [Hless|Hmore].
  - apply IH.
    + lia.
    + rewrite length_insert. lia.
    + intros j y Hj Hy. destruct (decide (j = pos)) as [->|Hjpos].
      * rewrite list_lookup_insert_eq in Hy by done. injection Hy as <-. lia.
      * rewrite list_lookup_insert_ne in Hy by done. by eapply Hfresh.
    + split.
      * intros j p c Hj Hjhole Hparhole Hp Hc.
        destruct (decide (j = pos)) as [->|Hjpos]; [done|].
        rewrite list_lookup_insert_ne in Hc by done.
        destruct (decide (heap_parent j = pos)) as [Hpar|Hpar].
        -- rewrite Hpar, list_lookup_insert_eq in Hp by done. injection Hp as <-.
           by eapply (HB j).
        -- rewrite list_lookup_insert_ne in Hp by done. by eapply HA.
      * intros j g c Hj Hhole Hpar Hg Hc.
        pose proof (heap_parent_lt (heap_parent pos) Hhole) as Hgrand.
        rewrite list_lookup_insert_ne in Hg by lia.
        assert (g.1 < parent.1) as Hgp by (eapply (HA (heap_parent pos)); [done|lia|lia|done|done]).
        destruct (decide (j = pos)) as [->|Hjpos].
        -- rewrite list_lookup_insert_eq in Hc by done. by injection Hc as <-.
        -- rewrite list_lookup_insert_ne in Hc by done.
           assert (parent.1 < c.1); [|lia].
           eapply (HA j); [done|done|lia| |done]. by rewrite Hpar.
    + intros j c Hj Hpar Hc. destruct (decide (j = pos)) as [->|Hjpos].
      * rewrite list_lookup_insert_eq in Hc by done. by injection Hc as <-.
      * rewrite list_lookup_insert_ne in Hc by done.
        assert (parent.1 < c.1); [|lia].
        eapply (HA j); [done|done|lia| |done]. by rewrite Hpar.
  - eexists. split; [done|]. apply fill_hole_ordered; try done.
    intros p _ Hp. assert (Some p = Some parent) as [= ->] by (rewrite <- Hp; exact Hparent).
    assert (parent.1 ≠ newitem.1) by (apply (Hfresh (heap_parent pos)); [lia|done]).
    lia.
Qed.

Ltac hlia := unfold item in *; lia.

(** The root of a heap is at least as urgent as every entry. *)
Lemma heap_root_min (heap : list item) (r : item) :
  heap_ordered heap → heap !! 0%nat = Some r →
  ∀ j y, heap !! j = Some y → r.1 ≤ y.1.
Proof.
  intros Hord Hroot j. induction (lt_wf j) as [j _ IH]. intros y Hy.
  destruct (decide (j = 0%nat)) as [->|Hj].
  - assert (Some y = Some r) as [= ->] by (rewrite <- Hy; exact Hroot). lia.
  - pose proof (heap_parent_lt j ltac:(lia)) as Hlt.
    assert (is_Some (heap !! heap_parent j)) as [p Hp].
    { apply lookup_lt_is_Some_2. apply lookup_lt_Some in Hy.
      exact (Nat.lt_trans _ _ _ Hlt Hy). }
    pose proof (IH _ Hlt p Hp). pose proof (Hord j p y ltac:(lia) Hp Hy). lia.
Qed.

(** [put] on a heap of distinct priorities, with a priority that is not
    queued: no comparison raises and the list is a heap again. *)
Lemma heappush_ordered (heap : list item) (x : item) :
  distinct_priorities (x :: heap) →
  heap_ordered heap →
  ∃ heap', heappush heap x = (heap', Ok tt) ∧ heap_ordered heap'.
Proof.
  unfold distinct_priorities. rewrite fmap_cons, NoDup_cons. intros [Hx _] Hord.
  unfold heappush, _siftdown.
  rewrite lookup_app_r, Nat.sub_diag by (unfold item in *; lia). cbn [lookup list_lookup].
  apply siftdown_loop_ordered.
  - (unfold item in *; lia).
  - rewrite length_app. simpl. (unfold item in *; lia).
  - intros j y Hj Hy. apply lookup_app_Some in Hy as [Hy|[Hge Hy]].
    + intros Heq. apply Hx. rewrite <- Heq.
      apply list_elem_of_fmap_2. by eapply list_elem_of_lookup_2.
    + apply lookup_lt_Some in Hy. simpl in Hy. (unfold item in *; lia).
  - split.
    + intros j p c Hj Hjlen Hparlen Hp Hc.
      pose proof (heap_parent_lt j Hj).
      assert (j < length heap)%nat.
      { apply lookup_lt_Some in Hc. rewrite length_app in Hc. simpl in Hc. (unfold item in *; lia). }
      rewrite lookup_app_l in Hp, Hc by (unfold item in *; lia). by eapply Hord.
    + intros j g c Hj _ Hpar _ Hc. pose proof (heap_parent_lt j Hj).
      apply lookup_lt_Some in Hc. rewrite length_app in Hc. simpl in Hc. (unfold item in *; lia).
  - intros j c Hj Hpar Hc. pose proof (heap_parent_lt j Hj).
    apply lookup_lt_Some in Hc. rewrite length_app in Hc. simpl in Hc. (unfold item in *; lia).
Qed.

Lemma siftup_loop_ordered (fuel endpos pos : nat) (newitem : item) (heap : list item) :
  endpos = length heap →
  (pos < endpos)%nat →
  (endpos ≤ fuel + pos)%nat →
  hole_distinct pos heap →
  fresh_priority newitem pos heap →
  hole_ordered pos heap →
  ∃ heap' leaf, _siftup_loop fuel endpos pos heap = (heap', Ok leaf)
    ∧ length heap' = endpos
    ∧ (leaf < endpos)%nat
    ∧ fresh_priority newitem leaf heap'
    ∧ hole_ordered leaf heap'
    ∧ (∀ j, (0 < j)%nat → heap_parent j = leaf → (endpos ≤ j)%nat).
Proof.
  revert pos heap. induction fuel as [|fuel IH];
    intros pos heap Hend Hpos Hfuel Hdist Hfresh [HA HB]; [hlia|].
  cbn [_siftup_loop]. case_bool_decide as Hchild.
  2: { exists heap, pos. do 5 (split; [done|]).
       intros j Hj Hpar. destruct (heap_parent_children j pos Hj Hpar); hlia. }
  (* the child that moves up: the more urgent of the two *)
  assert (∃ chosen child,
            (if bool_decide (2 * pos + 1 + 1 < endpos)%nat
             then match heap !! (2 * pos + 1)%nat, heap !! (2 * pos + 1 + 1)%nat with
                  | Some l, Some r =>
                      match item_lt l r with
                      | Ok b => Ok (if b then (2 * pos + 1)%nat else (2 * pos + 1 + 1)%nat)
                      | Raise e => Raise e
                      end
                  | _, _ => Raise IndexError
                  end
             else Ok (2 * pos + 1)%nat) = Ok chosen
            ∧ heap !! chosen = Some child
            ∧ heap_parent chosen = pos ∧ (pos < chosen < endpos)%nat
            ∧ ∀ j c, (0 < j)%nat → heap_parent j = pos → j ≠ chosen →
                     heap !! j = Some c → child.1 < c.1)
    as (chosen & child & -> & Hchosen & Hparent & Hrange & Hsibling).
  { assert (is_Some (heap !! (2 * pos + 1)%nat)) as [l Hl]
      by (apply lookup_lt_is_Some_2; hlia).
    case_bool_decide as Hright.
    - assert (is_Some (heap !! (2 * pos + 1 + 1)%nat)) as [r Hr]
        by (apply lookup_lt_is_Some_2; hlia).
      rewrite Hl, Hr.
      assert (l.1 ≠ r.1) as Hlr by (eapply (Hdist (2 * pos + 1)%nat (2 * pos + 1 + 1)%nat);
                                     [hlia|hlia|hlia|done|done]).
      rewrite (item_lt_distinct l r Hlr).
      destruct (Z.ltb_spec l.1 r.1).
      + exists (2 * pos + 1)%nat, l. split; [done|]. split; [done|].
        split; [apply heap_parent_left|]. split; [hlia|].
        intros j c Hj Hpar Hne Hc.
        destruct (heap_parent_children j pos Hj Hpar) as [->| ->]; [done|].
        replace (2 * pos + 2)%nat with (2 * pos + 1 + 1)%nat in Hc by hlia.
        assert (Some c = Some r) as [= ->] by (rewrite <- Hc; exact Hr). done.
      + exists (2 * pos + 1 + 1)%nat, r. split; [done|]. split; [done|].
        split; [apply heap_parent_right|]. split; [hlia|].
        intros j c Hj Hpar Hne Hc.
        destruct (heap_parent_children j pos Hj Hpar) as [->| ->]; [|hlia].
        assert (Some c = Some l) as [= ->] by (rewrite <- Hc; exact Hl). hlia.
    - exists (2 * pos + 1)%nat, l. split; [done|]. split; [done|].
      split; [apply heap_parent_left|]. split; [hlia|].
      intros j c Hj Hpar Hne Hc.
      destruct (heap_parent_children j pos Hj Hpar) as [->| ->]; [done|].
      apply lookup_lt_Some in Hc. hlia. }
  unfold item in *. rewrite Hchosen.
  destruct (IH chosen (<[pos := child]> heap)) as (heap' & leaf & Hloop & Hrest).
  - by rewrite length_insert.
  - hlia.
  - hlia.
  - intros i j a b Hij Hi Hj Ha Hb.
    destruct (decide (i = pos)) as [->|Hipos], (decide (j = pos)) as [->|Hjpos];
      try done.
    + rewrite list_lookup_insert_eq in Ha by hlia. injection Ha as <-.
      rewrite list_lookup_insert_ne in Hb by done.
      eapply (Hdist chosen j); [hlia|hlia|done|done|done].
    + rewrite list_lookup_insert_eq in Hb by hlia. injection Hb as <-.
      rewrite list_lookup_insert_ne in Ha by done.
      eapply (Hdist i chosen); [hlia|done|hlia|done|done].
    + rewrite list_lookup_insert_ne in Ha, Hb by done. by eapply (Hdist i j).
  - intros j y Hj Hy. destruct (decide (j = pos)) as [->|Hjpos].
    + rewrite list_lookup_insert_eq in Hy by hlia. injection Hy as <-.
      eapply (Hfresh chosen); [hlia|done].
    + rewrite list_lookup_insert_ne in Hy by done. by eapply Hfresh.
  - split.
    + intros j p c Hj Hjhole Hparhole Hp Hc.
      destruct (decide (j = pos)) as [->|Hjpos].
      * rewrite list_lookup_insert_eq in Hc by hlia. injection Hc as <-.
        pose proof (heap_parent_lt pos Hj).
        rewrite list_lookup_insert_ne in Hp by hlia.
        eapply (HB chosen); [hlia|done|done|done|done].
      * rewrite list_lookup_insert_ne in Hc by done.
        destruct (decide (heap_parent j = pos)) as [Hpar|Hpar].
        -- rewrite Hpar, list_lookup_insert_eq in Hp by hlia. injection Hp as <-.
           eapply Hsibling; done.
        -- rewrite list_lookup_insert_ne in Hp by done. by eapply HA.
    + intros j g c Hj _ Hpar Hg Hc.
      rewrite Hparent, list_lookup_insert_eq in Hg by hlia. injection Hg as <-.
      pose proof (heap_parent_lt j Hj).
      rewrite list_lookup_insert_ne in Hc by hlia.
      eapply (HA j); [done|hlia|hlia| |done]. by rewrite Hpar.
  - exists heap', leaf. split; [done|]. exact Hrest.
Qed.

Lemma distinct_priorities_lookup (heap : list item) (i j : nat) (a b : item) :
  distinct_priorities heap → i ≠ j →
  heap !! i = Some a → heap !! j = Some b → a.1 ≠ b.1.
Proof.
  unfold distinct_priorities, item in *. intros Hnd Hij Ha Hb Heq. apply Hij.
  apply (NoDup_lookup (fst <$> heap) i j a.1 Hnd).
  - by rewrite list_lookup_fmap, Ha.
  - by rewrite list_lookup_fmap, Hb, Heq.
Qed.

Lemma hole_ordered_insert (pos : nat) (x : item) (heap : list item) :
  hole_ordered pos heap → hole_ordered pos (<[pos := x]> heap).
Proof.
  intros [HA HB]. split.
  - intros j p c Hj Hjpos Hpar Hp Hc.
    rewrite list_lookup_insert_ne in Hp, Hc by done. by eapply (HA j).
  - intros j g c Hj Hpos Hpar Hg Hc.
    pose proof (heap_parent_lt j Hj). pose proof (heap_parent_lt pos Hpos).
    rewrite list_lookup_insert_ne in Hg, Hc by lia. by eapply (HB j).
Qed.

Lemma fresh_priority_insert (pos : nat) (x y : item) (heap : list item) :
  fresh_priority x pos heap → fresh_priority x pos (<[pos := y]> heap).
Proof.
  intros Hfresh j z Hj Hz. rewrite list_lookup_insert_ne in Hz by done.
  by eapply Hfresh.
Qed.

Lemma last_removelast (heap : list item) (lastelt : item) :
  last heap = Some lastelt → heap = removelast heap ++ [lastelt].
Proof.
  intros Hlast. apply last_Some in Hlast as [init ->].
  by rewrite removelast_last.
Qed.

(** [get] on a non-empty heap of distinct priorities: no comparison raises,
    the entry returned is the root, no queued entry is more urgent than it,
    and what stays queued is a heap again. *)
Lemma heappop_min (heap : list item) :
  distinct_priorities heap →
  heap_ordered heap →
  heap ≠ [] →
  ∃ heap' x, heappop heap = (heap', Ok x)
    ∧ heap !! 0%nat = Some x
    ∧ (∀ y, y ∈ heap → x.1 ≤ y.1)
    ∧ heap_ordered heap'.
Proof.
  intros Hnd Hord Hne. unfold heappop.
  destruct (last heap) as [lastelt|] eqn:Hlast.
  2: { apply last_None in Hlast. done. }
  pose proof (last_removelast heap lastelt Hlast) as Hsplit.
  assert (∀ x, heap !! 0%nat = Some x → ∀ y, y ∈ heap → x.1 ≤ y.1) as Hmin.
  { intros x Hx y [j Hy]%list_elem_of_lookup_1. by eapply heap_root_min. }
  destruct (removelast heap) as [|returnitem rest] eqn:Hinit.
  { exists [], lastelt. rewrite Hsplit in Hmin |- *. cbn. split; [done|].
    split; [done|]. split; [by apply Hmin|].
    intros j p c _ Hp. by rewrite lookup_nil in Hp. }
  set (init := returnitem :: rest) in *.
  assert (heap !! 0%nat = Some returnitem) as Hroot by (by rewrite Hsplit).
  assert (∀ j y, init !! j = Some y → heap !! j = Some y) as Hinit_lookup.
  { intros j y Hy. rewrite Hsplit. by apply lookup_app_l_Some. }
  assert (heap !! length init = Some lastelt) as Hlast_lookup.
  { rewrite Hsplit at 1. rewrite lookup_app_r, Nat.sub_diag by lia. done. }
  unfold _siftup. change (<[0%nat := lastelt]> init) with (lastelt :: rest).
  cbn [lookup list_lookup].
  destruct (siftup_loop_ordered (length (lastelt :: rest)) (length (lastelt :: rest))
              0 lastelt (lastelt :: rest))
    as (heap1 & leaf & -> & Hlen & Hleaf & Hfresh & Hhole & Hchildren).
  - done.
  - cbn. lia.
  - lia.
  - intros i j a b Hij Hi Hj Ha Hb.
    destruct i as [|i], j as [|j]; try done. cbn in Ha, Hb.
    eapply (distinct_priorities_lookup heap (S i) (S j)); [done|done| |];
      by apply Hinit_lookup.
  - intros j y Hj Hy. destruct j as [|j]; [done|]. cbn in Hy.
    assert (S j < length init)%nat.
    { apply lookup_lt_Some in Hy. unfold init. cbn. hlia. }
    eapply (distinct_priorities_lookup heap (S j) (length init));
      [done|hlia| |done]. by apply Hinit_lookup.
  - split.
    + intros j p c Hj Hj0 Hpar Hp Hc.
      destruct j as [|j]; [done|].
      destruct (heap_parent (S j)) as [|k] eqn:Hk; [done|].
      cbn in Hp, Hc. eapply (Hord (S j)); [lia| |by apply Hinit_lookup].
      rewrite Hk. by apply Hinit_lookup.
    + intros j g c _ Hpos. lia.
  - unfold _siftdown. rewrite list_lookup_insert_eq by hlia.
    destruct (siftdown_loop_ordered (S leaf) lastelt leaf (<[leaf := lastelt]> heap1))
      as (heap' & -> & Hord').
    + lia.
    + rewrite length_insert. hlia.
    + by apply fresh_priority_insert.
    + by apply hole_ordered_insert.
    + intros j c Hj Hpar Hc. apply lookup_lt_Some in Hc.
      rewrite length_insert in Hc. pose proof (Hchildren j Hj Hpar). hlia.
    + exists heap', returnitem. split; [done|]. split; [done|].
      split; [by apply Hmin|done].
Qed.

Lemma heappush_ordered_witness :
  ∃ heap', heappush [(3, Scenario.sent_message "M1" 11 3)]
                    (0, Scenario.sent_message "M2" 12 0) = (heap', Ok tt)
           ∧ heap_ordered heap'.
Proof.
  apply heappush_ordered.
  - unfold distinct_priorities. cbn. apply (bool_decide_unpack _). reflexivity.
  - intros j p c Hj Hp Hc. destruct j as [|j]; [lia|]. cbn in Hc. discriminate.
Defined.

Lemma heappop_min_witness :
  ∃ heap' x,
    heappop [(0, Scenario.sent_message "M2" 12 0); (3, Scenario.sent_message "M1" 11 3)]
    = (heap', Ok x)
    ∧ [(0, Scenario.sent_message "M2" 12 0); (3, Scenario.sent_message "M1" 11 3)] !! 0%nat
      = Some x
    ∧ (∀ y, y ∈ [(0, Scenario.sent_message "M2" 12 0);
                 (3, Scenario.sent_message "M1" 11 3)] → x.1 ≤ y.1)
    ∧ heap_ordered heap'.
Proof.
  apply heappop_min.
  - unfold distinct_priorities. cbn. apply (bool_decide_unpack _). reflexivity.
  - intros j p c Hj Hp Hc. destruct j as [|[|j]]; [lia| |cbn in Hc; discriminate].
    cbn in Hp, Hc. injection Hp as <-. injection Hc as <-. cbn. lia.
  - discriminate.
Defined.


(** ** The receive path *)

Section receive_properties.
Context {L : Libraries}.

Lemma of_kwargs_signature (d : pydict) (m : TacticalMessage.t) :
  TacticalMessage.of_kwargs d = Ok m →
  get_opt_str "signature" d = Ok (TacticalMessage.signature m).
Proof.
  unfold TacticalMessage.of_kwargs. intros H.
  destruct (check_kwargs _ _ d); simpl in H; [|done].
  destruct (get_str "msg_id" d); simpl in H; [|done].
  destruct (get_str "msg_type" d); simpl in H; [|done].
  destruct (get_str "topic" d); simpl in H; [|done].
  destruct (get_str "sender" d); simpl in H; [|done].
  destruct (get_str_list "recipients" d); simpl in H; [|done].
  destruct (get_str "classification" d); simpl in H; [|done].
  destruct (get_int "priority" d); simpl in H; [|done].
  destruct (get_float "timestamp" d); simpl in H; [|done].
  destruct (get_opt_float "expires" d); simpl in H; [|done].
  destruct (get_dict "payload" d); simpl in H; [|done].
  destruct (get_str_list "attachments" d); simpl in H; [|done].
  destruct (get_opt_str "signature" d); simpl in H; [|done].
  by injection H as <-.
Qed.

(** A decoded message carries the signature of the frame, and that signature
    verified under the verify key of the identity decoded with it. *)
Lemma decoded_signature_verifies (data : string) (m : TacticalMessage.t)
    (sid : NodeIdentity.t) :
  decode_frame data = Ok (Decoded m sid) →
  ∃ input s, TacticalMessage.signature m = Some s
    ∧ verify_signature input s (NodeIdentity.verify_key sid) = Ok true.
Proof.
  unfold decode_frame. intros Hdec.
  destruct (json_loads data) as [env|]; simpl in Hdec; [|done].
  destruct (as_dict env) as [envd|]; simpl in Hdec; [|done].
  destruct (dict_item "sender_identity" envd) as [sv|]; simpl in Hdec; [|done].
  destruct (as_dict sv) as [sender_dict|]; simpl in Hdec; [|done].
  destruct (NodeIdentity.of_kwargs sender_dict) as [sid'|]; simpl in Hdec; [|done].
  destruct (dict_item "message" envd) as [mv|]; simpl in Hdec; [|done].
  destruct (as_dict mv) as [message_data|]; simpl in Hdec; [|done].
  destruct (negb (json_truthy (default JNull (dict_get "signature" message_data))));
    [done|].
  destruct (dict_item "version" envd) as [version|]; simpl in Hdec; [|done].
  destruct (dict_get "signature" message_data) as [sig|] eqn:Hsig;
    simpl in Hdec; [|done].
  destruct sig as [| | | |s| |]; simpl in Hdec; try done.
  match type of Hdec with
  | context [verify_signature ?input s ?key] =>
      destruct (verify_signature input s key) as [[|]|] eqn:Hver; simpl in Hdec;
        try done; exists input, s
  end.
  destruct (TacticalMessage.of_kwargs message_data) as [m'|] eqn:Hkw;
    simpl in Hdec; [|done].
  injection Hdec as <- <-. split; [|done].
  apply of_kwargs_signature in Hkw. unfold get_opt_str in Hkw.
  rewrite Hsig in Hkw. by injection Hkw as <-.
Qed.

(** What [_process_received_message] leaves alone. *)
Lemma process_received_frame (m : TacticalMessage.t) (st : node) :
  available (database st) = true →
  inbox (_process_received_message m st) = inbox st
  ∧ outbox (_process_received_message m st) = outbox st
  ∧ wire (_process_received_message m st) = wire st
  ∧ available (database (_process_received_message m st)) = true
  ∧ nodes (database (_process_received_message m st)) = nodes (database st)
  ∧ messages (database (_process_received_message m st)) = messages (database st).
Proof.
  intros Ha. unfold _process_received_message, _broadcast_to_clients.
  destruct (String.eqb (TacticalMessage.topic m) TOPIC_BLUE_FORCE).
  - destruct (Position.of_kwargs (TacticalMessage.payload m)) as [p|e]; simpl.
    + rewrite (upsert_position_ok p _ Ha). simpl.
      by destruct (connected_clients st).
    + done.
  - destruct (String.eqb (TacticalMessage.topic m) TOPIC_ALERT); simpl;
      by destruct (connected_clients st).
Qed.

(** The state after a datagram that decodes, on a store that answers. *)
Lemma receive_accepted (now : Q) (data : string) (st : node)
    (m : TacticalMessage.t) (sid : NodeIdentity.t) :
  data ≠ "" →
  decode_frame data = Ok (Decoded m sid) →
  available (database st) = true →
  inbox (receive_datagram now data st) = inbox st ++ [(m, sid)]
  ∧ outbox (receive_datagram now data st) = outbox st
  ∧ wire (receive_datagram now data st) = wire st
  ∧ available (database (receive_datagram now data st)) = true
  ∧ messages (database (receive_datagram now data st))
    = insert_or_replace MessageRow.msg_id (message_row m) (messages (database st)).
Proof.
  intros Hdata Hdec Ha. unfold receive_datagram.
  apply String.eqb_neq in Hdata. rewrite Hdata.
  destruct (decode_message_accepts now st data m sid Hdec Ha) as (d & Hd & ->).
  destruct (upsert_node_ok now sid (database st) Ha)
    as (d' & Hd' & Ha' & _ & Hmsgs & _).
  rewrite Hd in Hd'. injection Hd' as <-.
  cbn [database set_database].
  rewrite (store_message_ok m d Ha').
  set (st1 := set_database _ (set_database d st)).
  destruct (process_received_frame m st1 eq_refl)
    as (Hinbox & Houtbox & Hwire & Havail & _ & Hmessages).
  cbn. rewrite Hinbox, Houtbox, Hwire, Havail, Hmessages. cbn.
  by rewrite Hmsgs.
Qed.

Lemma decode_frame_not_json (data : string) (e : exn) :
  json_loads data = Raise e → decode_frame data = Raise e.
Proof. unfold decode_frame. by intros ->. Qed.

(** A datagram that is not JSON, that carries no signature, or whose
    signature does not verify, and any datagram that arrives while the store
    does not answer, leaves everything but the log as it was: nothing is
    stored, queued, delivered or broadcast.  The records written are the error
    of the parser, the warning for a missing signature, or the two warnings of
    a failed verification, the one of [verify_signature] first. *)
Theorem rejected_frame_only_logged (now : Q) (data : string) (st : node) :
  data ≠ "" →
  (∃ e, json_loads data = Raise e)
  ∨ decode_frame data = Ok Unsigned
  ∨ decode_frame data = Ok Unverified
  ∨ available (database st) = false →
  ∃ records, receive_datagram now data st = logged records st
    ∧ (∀ e, json_loads data = Raise e →
            records = [LogError "Message decoding failed" e])
    ∧ (decode_frame data = Ok Unsigned →
       records = [LogWarning "Received unsigned message"])
    ∧ (decode_frame data = Ok Unverified →
       records = [LogWarning "Signature verification failed";
                  LogWarning "Message signature verification failed"]).
Proof.
  intros Hdata Hrej. unfold receive_datagram.
  apply String.eqb_neq in Hdata. rewrite Hdata.
  unfold _decode_message.
  destruct (decode_frame data) as [[| |m sid]|e0] eqn:Hdec.
  - eexists [_]. split; [reflexivity|]. split; [|done].
    intros e He. apply decode_frame_not_json in He. congruence.
  - eexists [_; _]. split.
    { unfold logged, add_log. cbn. by rewrite <- app_assoc. }
    split; [|done].
    intros e He. apply decode_frame_not_json in He. congruence.
  - destruct Hrej as [[e He]|[?|[?|Hoff]]]; try done.
    { apply decode_frame_not_json in He. congruence. }
    unfold upsert_node, with_connection. rewrite Hoff.
    eexists [_]. split; [reflexivity|]. split; [|done].
    intros e He. apply decode_frame_not_json in He. congruence.
  - eexists [_]. split; [reflexivity|]. split; [|done].
    intros e He. apply decode_frame_not_json in He. congruence.
Qed.

(** Whatever reaches the inbox was decoded from the datagram, and carries a
    signature that verified under the verify key of the identity delivered
    with it. *)
Theorem inbox_only_verified (now : Q) (data : string) (st : node)
    (m : TacticalMessage.t) (sid : NodeIdentity.t) :
  (m, sid) ∈ inbox (receive_datagram now data st) →
  (m, sid) ∈ inbox st
  ∨ (decode_frame data = Ok (Decoded m sid)
     ∧ ∃ input s, TacticalMessage.signature m = Some s
         ∧ verify_signature input s (NodeIdentity.verify_key sid) = Ok true).
Proof.
  unfold receive_datagram.
  destruct (String.eqb data ""); [by left|].
  unfold _decode_message.
  destruct (decode_frame data) as [[| |m' sid']|e] eqn:Hdec; try by left.
  destruct (upsert_node now sid' (database st)) as [d|e]; [|by left].
  cbn [database set_database].
  destruct (store_message m' d) as [d'|e] eqn:Hstore; [|by left].
  assert (available d' = true) as Ha.
  { unfold store_message, with_connection in Hstore.
    destruct (available d) eqn:Hav; [|done]. injection Hstore as <-. done. }
  set (st1 := set_database d' (set_database d st)).
  destruct (process_received_frame m' st1 Ha) as (Hinbox & _).
  cbn. rewrite Hinbox. cbn. rewrite elem_of_app, list_elem_of_singleton.
  intros [Hin|[= -> ->]]; [by left|right].
  split; [done|]. by eapply decoded_signature_verifies.
Qed.

Lemma filter_key_insert_or_replace {R} (pk : R → string) (row : R) (table : list R) :
  filter (λ r, pk r = pk row) (insert_or_replace pk row table) = [row].
Proof.
  unfold insert_or_replace. rewrite filter_app.
  assert (filter (λ r, pk r = pk row) (filter (λ r, pk r ≠ pk row) table) = []) as ->.
  { induction table as [|r table IH]; [done|].
    rewrite (filter_cons (λ r, pk r ≠ pk row)).
    destruct (decide (pk r ≠ pk row)) as [Hne|_]; [|done].
    rewrite filter_cons. by rewrite decide_False. }
  cbn. by rewrite decide_True.
Qed.

(** No replay protection: a datagram that is accepted is accepted again.  The
    message is delivered to the inbox once per arrival, and the store keeps
    one row for it. *)
Theorem replayed_frame_delivered_again (now1 now2 : Q) (data : string) (st : node)
    (m : TacticalMessage.t) (sid : NodeIdentity.t) :
  data ≠ "" →
  decode_frame data = Ok (Decoded m sid) →
  available (database st) = true →
  inbox (receive_datagram now2 data (receive_datagram now1 data st))
  = inbox st ++ [(m, sid); (m, sid)]
  ∧ filter (λ r, MessageRow.msg_id r = TacticalMessage.msg_id m)
      (messages (database (receive_datagram now2 data (receive_datagram now1 data st))))
    = [message_row m].
Proof.
  intros Hdata Hdec Ha.
  destruct (receive_accepted now1 data st m sid Hdata Hdec Ha)
    as (Hi1 & _ & _ & Ha1 & Hm1).
  destruct (receive_accepted now2 data _ m sid Hdata Hdec Ha1)
    as (Hi2 & _ & _ & _ & Hm2).
  split.
  - rewrite Hi2, Hi1, <- app_assoc. done.
  - rewrite Hm2.
    apply (filter_key_insert_or_replace MessageRow.msg_id (message_row m)).
Qed.

(** A blue-force message whose payload has a key that [Position] does not
    know, or lacks one that it requires: the message is stored and delivered
    to the inbox, the positions are unchanged and no client is told. *)
Theorem malformed_position_not_broadcast (now : Q) (data : string) (st : node)
    (m : TacticalMessage.t) (sid : NodeIdentity.t) :
  data ≠ "" →
  decode_frame data = Ok (Decoded m sid) →
  available (database st) = true →
  TacticalMessage.topic m = TOPIC_BLUE_FORCE →
  check_kwargs Position.fields Position.required (TacticalMessage.payload m)
    = Raise TypeError →
  ws_out (receive_datagram now data st) = ws_out st
  ∧ positions (database (receive_datagram now data st)) = positions (database st)
  ∧ inbox (receive_datagram now data st) = inbox st ++ [(m, sid)]
  ∧ message_row m ∈ messages (database (receive_datagram now data st)).
Proof.
  intros Hdata Hdec Ha Htopic Hkw.
  destruct (receive_accepted now data st m sid Hdata Hdec Ha)
    as (Hinbox & _ & _ & _ & Hmessages).
  split; [|split; [|split; [done|]]].
  3: { rewrite Hmessages. apply elem_of_insert_or_replace. by right. }
  all: unfold receive_datagram; apply String.eqb_neq in Hdata; rewrite Hdata;
    destruct (decode_message_accepts now st data m sid Hdec Ha) as (d & Hd & ->);
    destruct (upsert_node_ok now sid (database st) Ha)
      as (d' & Hd' & Ha' & Hpos & _);
    rewrite Hd in Hd'; injection Hd' as <-;
    cbn [database set_database];
    rewrite (store_message_ok m d Ha');
    unfold _process_received_message, Position.of_kwargs;
    rewrite Htopic, Hkw; cbn; done.
Qed.
(** An accepted message that is not a position report, or is one with a
    payload that [Position] takes, is sent to every connected web client
    once, as the same text. *)
Theorem accepted_message_broadcast (now : Q) (data : string) (st : node)
    (m : TacticalMessage.t) (sid : NodeIdentity.t) :
  data ≠ "" →
  decode_frame data = Ok (Decoded m sid) →
  available (database st) = true →
  (TacticalMessage.topic m = TOPIC_BLUE_FORCE →
   ∃ p, Position.of_kwargs (TacticalMessage.payload m) = Ok p) →
  ws_out (receive_datagram now data st)
  = ws_out st
    ++ ((λ c, (c, dumps_default
                    (JDict [("type", JStr "message");
                            ("data", JDict (TacticalMessage.asdict m))])))
          <$> connected_clients st).
Proof.
  intros Hdata Hdec Ha Hpos. unfold receive_datagram.
  apply String.eqb_neq in Hdata. rewrite Hdata.
  destruct (decode_message_accepts now st data m sid Hdec Ha) as (d & Hd & ->).
  destruct (upsert_node_ok now sid (database st) Ha) as (d' & Hd' & Ha' & _).
  rewrite Hd in Hd'. injection Hd' as <-.
  cbn [database set_database].
  rewrite (store_message_ok m d Ha').
  unfold _process_received_message, _broadcast_to_clients.
  destruct (String.eqb (TacticalMessage.topic m) TOPIC_BLUE_FORCE) eqn:Htopic.
  - apply String.eqb_eq in Htopic. destruct (Hpos Htopic) as [p ->].
    cbn [mbind result_bind database set_database].
    rewrite upsert_position_ok by done.
    cbn. destruct (connected_clients st); cbn; by rewrite ?app_nil_r.
  - destruct (String.eqb (TacticalMessage.topic m) TOPIC_ALERT);
      cbn; destruct (connected_clients st); cbn; by rewrite ?app_nil_r.
Qed.
End receive_properties.

Lemma rejected_frame_only_logged_witness :
  (∃ records,
     receive_datagram (L := Scenario.S1_libs) 21 Scenario.S1_frame Scenario.beta_node
     = logged records Scenario.beta_node
     ∧ (∀ e, json_loads (Libraries := Scenario.S1_libs) Scenario.S1_frame = Raise e →
             records = [LogError "Message decoding failed" e])
     ∧ (decode_frame (L := Scenario.S1_libs) Scenario.S1_frame = Ok Unsigned →
        records = [LogWarning "Received unsigned message"])
     ∧ (decode_frame (L := Scenario.S1_libs) Scenario.S1_frame = Ok Unverified →
        records = [LogWarning "Signature verification failed";
                   LogWarning "Message signature verification failed"]))
  ∧ receive_datagram (L := Scenario.S1_libs) 21 Scenario.S1_frame Scenario.beta_node
    = logged [LogWarning "Signature verification failed";
              LogWarning "Message signature verification failed"] Scenario.beta_node.
Proof.
  split; [|vm_compute; reflexivity].
  apply (rejected_frame_only_logged (L := Scenario.S1_libs) 21 Scenario.S1_frame
           Scenario.beta_node).
  - intros H. vm_compute in H. discriminate H.
  - right. right. left. vm_compute. reflexivity.
Defined.

Lemma inbox_only_verified_witness :
  (Scenario.rekey_decoded, Scenario.mallory) ∈ inbox Scenario.tracking_node
  ∨ (decode_frame (L := Scenario.rekey_libs) Scenario.rekey_frame
     = Ok (Decoded Scenario.rekey_decoded Scenario.mallory)
     ∧ ∃ input s, TacticalMessage.signature Scenario.rekey_decoded = Some s
         ∧ verify_signature (L := Scenario.rekey_libs) input s
             (NodeIdentity.verify_key Scenario.mallory) = Ok true).
Proof.
  apply (inbox_only_verified (L := Scenario.rekey_libs) 21 Scenario.rekey_frame
           Scenario.tracking_node).
  assert (inbox (receive_datagram (L := Scenario.rekey_libs) 21 Scenario.rekey_frame
                   Scenario.tracking_node)
          = [(Scenario.rekey_decoded, Scenario.mallory)]) as ->
    by (vm_compute; reflexivity).
  apply list_elem_of_here.
Defined.

Lemma replayed_frame_delivered_again_witness :
  inbox (receive_datagram (L := Scenario.rekey_libs) 22 Scenario.rekey_frame
           (receive_datagram (L := Scenario.rekey_libs) 21 Scenario.rekey_frame
              Scenario.tracking_node))
  = inbox Scenario.tracking_node
    ++ [(Scenario.rekey_decoded, Scenario.mallory);
        (Scenario.rekey_decoded, Scenario.mallory)]
  ∧ filter (λ r, MessageRow.msg_id r = TacticalMessage.msg_id Scenario.rekey_decoded)
      (messages (database
         (receive_datagram (L := Scenario.rekey_libs) 22 Scenario.rekey_frame
            (receive_datagram (L := Scenario.rekey_libs) 21 Scenario.rekey_frame
               Scenario.tracking_node))))
    = [message_row (L := Scenario.rekey_libs) Scenario.rekey_decoded].
Proof.
  apply (replayed_frame_delivered_again (L := Scenario.rekey_libs) 21 22
           Scenario.rekey_frame Scenario.tracking_node Scenario.rekey_decoded
           Scenario.mallory).
  - intros H. vm_compute in H. discriminate H.
  - vm_compute. reflexivity.
  - reflexivity.
Defined.

Lemma malformed_position_not_broadcast_witness :
  ws_out (receive_datagram (L := Exercise.stray_libs) 31 Exercise.stray_frame
            Scenario.tracking_node) = ws_out Scenario.tracking_node
  ∧ positions (database (receive_datagram (L := Exercise.stray_libs) 31
                           Exercise.stray_frame Scenario.tracking_node))
    = positions (database Scenario.tracking_node)
  ∧ inbox (receive_datagram (L := Exercise.stray_libs) 31 Exercise.stray_frame
             Scenario.tracking_node)
    = inbox Scenario.tracking_node ++ [(Exercise.stray_decoded, Scenario.alpha)]
  ∧ message_row (L := Exercise.stray_libs) Exercise.stray_decoded
    ∈ messages (database (receive_datagram (L := Exercise.stray_libs) 31
                            Exercise.stray_frame Scenario.tracking_node)).
Proof.
  apply (malformed_position_not_broadcast (L := Exercise.stray_libs) 31
           Exercise.stray_frame Scenario.tracking_node Exercise.stray_decoded
           Scenario.alpha).
  - intros H. vm_compute in H. discriminate H.
  - vm_compute. reflexivity.
  - reflexivity.
  - reflexivity.
  - reflexivity.
Defined.

Lemma accepted_message_broadcast_witness :
  ws_out (receive_datagram (L := Scenario.rekey_libs) 21 Scenario.rekey_frame
            Scenario.tracking_node)
  = ws_out Scenario.tracking_node
    ++ ((λ c, (c, dumps_default (L := Scenario.rekey_libs)
                    (JDict [("type", JStr "message");
                            ("data", JDict (TacticalMessage.asdict Scenario.rekey_decoded))])))
          <$> connected_clients Scenario.tracking_node).
Proof.
  apply (accepted_message_broadcast (L := Scenario.rekey_libs) 21 Scenario.rekey_frame
           Scenario.tracking_node Scenario.rekey_decoded Scenario.mallory).
  - intros H. vm_compute in H. discriminate H.
  - vm_compute. reflexivity.
  - reflexivity.
  - intros H. vm_compute in H. discriminate H.
Defined.


(** ** The tactical picture *)

(** Settle every comparison of the goal from the facts at hand, products of
    two of them included. *)
Ltac decide_tests_nra :=
  repeat first
    [ match goal with
      | |- context [Qltb ?a ?b] =>
          first [rewrite (Qltb_true a b) by lra | rewrite (Qltb_false a b) by lra]
      | |- context [Qleb ?a ?b] =>
          first [rewrite (Qleb_true a b) by lra | rewrite (Qleb_false a b) by lra]
      | |- context [Qeqb ?a ?b] =>
          first [rewrite (Qeqb_true a b) by lra | rewrite (Qeqb_false a b) by lra]
      | |- context [orientation_index ?a ?b ?c] =>
          unfold orientation_index; cbn [fst snd];
          first [rewrite sgn_Qnum_pos by nra
                | rewrite sgn_Qnum_neg by nra
                | rewrite sgn_Qnum_zero by nra]
      end
    | progress cbn [fst snd andb orb negb Z.eqb Z.opp Pos.eqb Nat.odd Nat.even] ].

Ltac count_segment_nra :=
  erewrite count_ring_cons;
  [|unfold countSegment; cbn [fst snd]; decide_tests_nra; reflexivity];
  cbn [fst snd].

(** The box of [get_tactical_picture], at every point: inside when strictly
    between the sides, on the boundary when on a side or a corner. *)
Lemma bbox_locate (minx miny maxx maxy x y : Q) :
  (minx < maxx)%Q → (miny < maxy)%Q →
  locate_in_polygon (x, y) (bbox_polygon (minx, miny, maxx, maxy)) =
    if Qltb minx x && Qltb x maxx && Qltb miny y && Qltb y maxy then INTERIOR
    else if Qleb minx x && Qleb x maxx && Qleb miny y && Qleb y maxy then BOUNDARY
    else EXTERIOR.
Proof.
  intros Hx Hy. unfold locate_in_polygon, bbox_polygon, locate_in_ring.
  cbn [Polygon.shell Polygon.holes locate_in_holes].
  destruct (Q_dec x minx) as [[Hx0|Hx0]|Hx0], (Q_dec x maxx) as [[Hx1|Hx1]|Hx1];
    try (exfalso; lra);
  destruct (Q_dec y miny) as [[Hy0|Hy0]|Hy0], (Q_dec y maxy) as [[Hy1|Hy1]|Hy1];
    try (exfalso; lra).
  all: repeat count_segment_nra.
  all: decide_tests_nra.
  all: reflexivity.
Qed.

Lemma bbox_within (minx miny maxx maxy x y : Q) :
  (minx < maxx)%Q → (miny < maxy)%Q →
  within (x, y) (bbox_polygon (minx, miny, maxx, maxy))
  = Qltb minx x && Qltb x maxx && Qltb miny y && Qltb y maxy.
Proof.
  intros Hx Hy. unfold within, contains. rewrite bbox_locate by done.
  destruct (Qltb minx x && Qltb x maxx && Qltb miny y && Qltb y maxy); [done|].
  by destruct (Qleb minx x && Qleb x maxx && Qleb miny y && Qleb y maxy).
Qed.

(** With a box that has an interior, the picture is made of the current
    positions that lie strictly inside the box, in the order of the query: a
    position on a side or a corner of the box is left out. *)
Theorem tactical_picture_bbox (now minx miny maxx maxy : Q) (d : db) :
  (minx < maxx)%Q → (miny < maxy)%Q →
  available d = true →
  ∃ positions, get_current_positions now 300 d = Ok positions
    ∧ get_tactical_picture now (Some (minx, miny, maxx, maxy)) d
      = Feature.of_position <$>
          filter (λ p, Qltb minx (LoadedPosition.lon p) && Qltb (LoadedPosition.lon p) maxx
                       && Qltb miny (LoadedPosition.lat p) && Qltb (LoadedPosition.lat p) maxy
                       = true) positions.
Proof.
  intros Hx Hy Ha. unfold get_tactical_picture.
  unfold get_current_positions, with_connection. rewrite Ha.
  eexists. split; [done|].
  generalize (LoadedPosition.of_row <$> current_position_rows (now - 300) d).
  intros positions. destruct positions as [|p positions]; [done|].
  f_equal. apply list_filter_iff. intros q. by rewrite bbox_within.
Qed.

Lemma tactical_picture_bbox_witness :
  (∃ positions, get_current_positions 140 300 Scenario.picture_db = Ok positions
     ∧ get_tactical_picture 140 (Some (0, 0, 10, 10)%Q) Scenario.picture_db
       = Feature.of_position <$>
           filter (λ p, Qltb 0 (LoadedPosition.lon p) && Qltb (LoadedPosition.lon p) 10
                        && Qltb 0 (LoadedPosition.lat p) && Qltb (LoadedPosition.lat p) 10
                        = true) positions)
  ∧ Feature.node_id <$> get_tactical_picture 140 (Some (0, 0, 10, 10)%Q)
                          Scenario.picture_db = ["e"].
Proof.
  split; [|vm_compute; reflexivity].
  apply (tactical_picture_bbox 140 0 0 10 10 Scenario.picture_db); reflexivity.
Defined.

(** In every store that the program can be in, the picture has at most one
    feature for a [node_id], with a box or without. *)
Theorem tactical_picture_one_feature_per_node {L : Libraries} (now : Q)
    (bbox : option (Q * Q * Q * Q)) (d : db) :
  reachable d →
  NoDup (Feature.node_id <$> get_tactical_picture now bbox d).
Proof.
  intros Hreach. unfold get_tactical_picture.
  destruct (get_current_positions now 300 d) as [positions|e] eqn:Hget;
    [|apply NoDup_nil_2].
  pose proof (current_positions_NoDup now 300 d positions Hreach Hget) as Hnd.
  destruct positions as [|p positions]; [apply NoDup_nil_2|].
  rewrite <- list_fmap_compose.
  change (Feature.node_id ∘ Feature.of_position) with LoadedPosition.node_id.
  destruct bbox as [b|]; [|done].
  eapply sublist_NoDup; [exact Hnd|]. apply fmap_sublist, sublist_filter.
Qed.

Lemma tactical_picture_one_feature_per_node_witness :
  NoDup (Feature.node_id <$>
           get_tactical_picture 120 None
             (mk_db true
                [NodeRow.mk "a" "ALPHA" "1PLT" "E-4" "OPERATOR" 3 "EK_a" "VK_a" 10
                   "ACTIVE" 1]
                [Scenario.P1] [] [])).
Proof.
  apply (tactical_picture_one_feature_per_node (L := Scenario.plain_libs) 120 None).
  eapply (reachable_upsert_position (L := Scenario.plain_libs) Scenario.P1
            (database Scenario.alpha_node)); [|reflexivity].
  apply (reachable_upsert_node (L := Scenario.plain_libs) 10 Scenario.alpha
           _initialize_database); [apply reachable_init|reflexivity].
Defined.


(** ** [_convert_to_mgrs] *)

(** [int] of a number that is not negative is its floor. *)
Lemma Qtruncate_floor (q : Q) :
  (0 <= q)%Q →
  0 ≤ Qtruncate q
  ∧ (inject_Z (Qtruncate q) <= q)%Q ∧ (q < inject_Z (Qtruncate q + 1))%Q.
Proof.
  destruct q as [n d]. unfold Qtruncate, Qle, Qlt. cbn. intros Hq.
  assert (0 ≤ n) as Hn by lia.
  rewrite Z.quot_div_nonneg by lia.
  pose proof (Z.mul_div_le n (Z.pos d) ltac:(lia)).
  pose proof (Z.mul_succ_div_gt n (Z.pos d) ltac:(lia)).
  pose proof (Z.div_pos n (Z.pos d) Hn ltac:(lia)).
  repeat split; [done|lia|lia].
Qed.

(** For a longitude and a latitude in the range of the grid the text is
    never empty: it is a number from 1 to 61 followed by one of the 21
    letters from C to W. *)
Theorem convert_to_mgrs_in_range (lat lon : Q) :
  (-180 <= lon <= 180)%Q → (-80 <= lat <= 84)%Q →
  ∃ zone band,
    _convert_to_mgrs lat lon = pretty zone +:+ String (ascii_of_N (Z.to_N (67 + band))) ""
    ∧ 1 ≤ zone ≤ 61 ∧ 0 ≤ band ≤ 20.
Proof.
  intros Hlon Hlat. unfold _convert_to_mgrs, chr.
  destruct (Qtruncate_floor ((lon + 180) / 6)) as (Hz0 & Hz1 & Hz2).
  { apply Qle_shift_div_l; lra. }
  destruct (Qtruncate_floor ((lat + 80) / 8)) as (Hb0 & Hb1 & Hb2).
  { apply Qle_shift_div_l; lra. }
  set (z := Qtruncate ((lon + 180) / 6)) in *.
  set (b := Qtruncate ((lat + 80) / 8)) in *.
  assert ((lon + 180) / 6 <= 60)%Q as Hzmax by (apply Qle_shift_div_r; lra).
  assert ((lat + 80) / 8 <= 41 # 2)%Q as Hbmax by (apply Qle_shift_div_r; lra).
  assert (z < 61) as Hz by (rewrite Zlt_Qlt; change (inject_Z 61) with 61%Q; lra).
  assert (b < 21) as Hb by (rewrite Zlt_Qlt; change (inject_Z 21) with 21%Q; lra).
  exists (z + 1), b.
  replace (67 + b <? 0) with false by (symmetry; apply Z.ltb_ge; lia).
  replace (255 <? 67 + b) with false by (symmetry; apply Z.ltb_ge; lia).
  cbn [orb]. split; [done|]. split; lia.
Qed.

Lemma convert_to_mgrs_in_range_witness :
  (∃ zone band,
     _convert_to_mgrs 37 (-122)
     = pretty zone +:+ String (ascii_of_N (Z.to_N (67 + band))) ""
     ∧ 1 ≤ zone ≤ 61 ∧ 0 ≤ band ≤ 20)
  ∧ _convert_to_mgrs 37 (-122) = "10Q".
Proof.
  split; [|reflexivity].
  apply (convert_to_mgrs_in_range 37 (-122)); split; discriminate.
Defined.


(** ** From [send_message] to the transports *)

Section send_properties.
Context {L : Libraries}.

Lemma heappush_empty (x : item) : heappush [] x = ([x], Ok tt).
Proof. reflexivity. Qed.

Lemma heappop_single (x : item) : heappop [x] = ([], Ok x).
Proof. reflexivity. Qed.

(** The node after [send_message] on an empty queue and a store that
    answers. *)
Lemma send_message_on_empty_queue (msg_id : string) (now : Q)
    (topic : string) (payload : pydict) (recipients : list string) (priority : Z)
    (classification : string) (st : node) :
  let message :=
    TacticalMessage.mk msg_id "DATA" topic (NodeIdentity.node_id (identity st))
      recipients classification priority now None payload [] None in
  outbox st = [] →
  available (database st) = true →
  send_message msg_id now topic payload recipients priority classification st
  = add_log (LogInfo ("Queued message " +:+ msg_id +:+ " for transmission"))
      (set_outbox [(priority, message)]
         (set_database
            (mk_db true (nodes (database st)) (positions (database st))
               (insert_or_replace MessageRow.msg_id (message_row message)
                  (messages (database st)))
               (geofences (database st))) st)).
Proof.
  intros message Hq Ha. unfold send_message. fold message.
  rewrite (store_message_ok message _ Ha). cbn [outbox set_database].
  by rewrite Hq, heappush_empty.
Qed.

(** A message sent on an empty queue, on a store that answers, is handed by
    the next turn of the transmit loop to every transport, as one and the same
    datagram: the envelope with the signature of [sign_message] in it.  The
    queue is empty again and the message is in the store. *)
Theorem queued_message_reaches_every_transport (msg_id : string) (now : Q)
    (topic : string) (payload : pydict) (recipients : list string) (priority : Z)
    (classification signature : string) (st : node) :
  let message :=
    TacticalMessage.mk msg_id "DATA" topic (NodeIdentity.node_id (identity st))
      recipients classification priority now None payload [] None in
  let st' :=
    transmit_step
      (send_message msg_id now topic payload recipients priority classification st) in
  outbox st = [] →
  available (database st) = true →
  sign_message (keys st) (signing_input (identity st) message) = Ok signature →
  wire st'
  = wire st ++ ((λ t, (t, dumps_compact (signed_envelope (identity st) message signature)))
                  <$> transports st)
  ∧ outbox st' = []
  ∧ message_row message ∈ messages (database st').
Proof.
  intros message st' Hq Ha Hsign. subst st'.
  rewrite send_message_on_empty_queue by done. fold message.
  unfold transmit_step. cbn [outbox add_log set_outbox].
  rewrite heappop_single. unfold _encode_message.
  cbn [keys identity add_log set_outbox set_database].
  rewrite Hsign. cbn.
  split; [done|]. split; [done|].
  apply elem_of_insert_or_replace. by right.
Qed.

(** When signing raises, the turn of the transmit loop takes the message off
    the queue and gives nothing to the transports: the message stays in the
    store as sent, and is not queued again. *)
Theorem unsigned_message_is_dropped (msg_id : string) (now : Q)
    (topic : string) (payload : pydict) (recipients : list string) (priority : Z)
    (classification : string) (e : exn) (st : node) :
  let message :=
    TacticalMessage.mk msg_id "DATA" topic (NodeIdentity.node_id (identity st))
      recipients classification priority now None payload [] None in
  let st' :=
    transmit_step
      (send_message msg_id now topic payload recipients priority classification st) in
  outbox st = [] →
  available (database st) = true →
  sign_message (keys st) (signing_input (identity st) message) = Raise e →
  wire st' = wire st
  ∧ outbox st' = []
  ∧ message_row message ∈ messages (database st').
Proof.
  intros message st' Hq Ha Hsign. subst st'.
  rewrite send_message_on_empty_queue by done. fold message.
  unfold transmit_step. cbn [outbox add_log set_outbox].
  rewrite heappop_single. unfold _encode_message.
  cbn [keys identity add_log set_outbox set_database].
  rewrite Hsign. cbn.
  split; [done|]. split; [done|].
  apply elem_of_insert_or_replace. by right.
Qed.
End send_properties.

Lemma queued_message_reaches_every_transport_witness :
  wire (transmit_step (L := Scenario.plain_libs)
          (send_message (L := Scenario.plain_libs) "m1" 11 "command" Scenario.move []
             2 "UNCLASSIFIED" Exercise.two_radio_node))
  = [("batman", Scenario.frame (Scenario.sent_message "m1" 11 2));
     ("lora", Scenario.frame (Scenario.sent_message "m1" 11 2))]
  ∧ outbox (transmit_step (L := Scenario.plain_libs)
              (send_message (L := Scenario.plain_libs) "m1" 11 "command" Scenario.move []
                 2 "UNCLASSIFIED" Exercise.two_radio_node)) = []
  ∧ message_row (L := Scenario.plain_libs) (Scenario.sent_message "m1" 11 2)
    ∈ messages (database
        (transmit_step (L := Scenario.plain_libs)
           (send_message (L := Scenario.plain_libs) "m1" 11 "command" Scenario.move []
              2 "UNCLASSIFIED" Exercise.two_radio_node))).
Proof.
  apply (queued_message_reaches_every_transport (L := Scenario.plain_libs) "m1" 11
           "command" Scenario.move [] 2 "UNCLASSIFIED"
           (Scenario.sign "VK_a"
              (signing_input (L := Scenario.plain_libs) Scenario.alpha
                 (Scenario.sent_message "m1" 11 2)))
           Exercise.two_radio_node); reflexivity.
Defined.

Lemma unsigned_message_is_dropped_witness :
  wire (transmit_step (L := Scenario.plain_libs)
          (send_message (L := Scenario.plain_libs) "m1" 11 "command" Scenario.move []
             2 "UNCLASSIFIED" Exercise.keyless_node)) = []
  ∧ outbox (transmit_step (L := Scenario.plain_libs)
              (send_message (L := Scenario.plain_libs) "m1" 11 "command" Scenario.move []
                 2 "UNCLASSIFIED" Exercise.keyless_node)) = []
  ∧ message_row (L := Scenario.plain_libs) (Scenario.sent_message "m1" 11 2)
    ∈ messages (database
        (transmit_step (L := Scenario.plain_libs)
           (send_message (L := Scenario.plain_libs) "m1" 11 "command" Scenario.move []
              2 "UNCLASSIFIED" Exercise.keyless_node))).
Proof.
  apply (unsigned_message_is_dropped (L := Scenario.plain_libs) "m1" 11
           "command" Scenario.move [] 2 "UNCLASSIFIED" ValueError
           Exercise.keyless_node); reflexivity.
Defined.


(** ** [update_position] *)

(** [Position( **asdict(position))] is the position. *)
Lemma Position_of_kwargs_asdict (p : Position.t) :
  Position.of_kwargs (Position.asdict p) = Ok p.
Proof. destruct p. reflexivity. Qed.

Section tracking_properties.
Context {L : Libraries}.

(** A position update on an empty queue and a store that answers: the
    position is the current one, it is in the store, and the one message
    queued for it, or any message with its topic and payload, processed by a
    receiver whose store answers, puts that same position in the place of the
    receiver's row for the node. *)
Theorem position_update_reaches_receiver (msg_id : string) (now send_now : Q)
    (lat lon alt accuracy speed course : Q) (t : tracker) :
  let position :=
    Position.mk (NodeIdentity.node_id (identity (tnode t))) lat lon alt accuracy
      speed course now (_convert_to_mgrs lat lon) in
  let t' := update_position msg_id now send_now lat lon alt accuracy speed course t in
  outbox (tnode t) = [] →
  available (database (tnode t)) = true →
  current_position t' = Some position
  ∧ position ∈ positions (database (tnode t'))
  ∧ ∃ m, outbox (tnode t') = [(2, m)]
      ∧ TacticalMessage.msg_id m = msg_id
      ∧ ∀ receiver m',
          TacticalMessage.topic m' = TacticalMessage.topic m →
          TacticalMessage.payload m' = TacticalMessage.payload m →
          available (database receiver) = true →
          positions (database (_process_received_message m' receiver))
          = insert_or_replace Position.node_id position (positions (database receiver)).
Proof.
  intros position t' Hq Ha. subst t'. unfold update_position. fold position.
  rewrite (upsert_position_ok position _ Ha).
  rewrite send_message_on_empty_queue by done.
  cbn [current_position tnode database outbox add_log set_outbox set_database positions].
  split; [done|]. split.
  { apply elem_of_insert_or_replace. by right. }
  eexists. split; [done|]. split; [done|].
  intros receiver m' Htopic Hpayload Hr. apply process_blue_force; [done| |done].
  rewrite Hpayload. cbn [TacticalMessage.payload]. apply Position_of_kwargs_asdict.
Qed.

(** A position update while the store does not answer: the position becomes
    the current one all the same, and nothing else but the log changes, so
    that the position is neither stored nor queued for the mesh. *)
Theorem position_update_store_failure (msg_id : string) (now send_now : Q)
    (lat lon alt accuracy speed course : Q) (t : tracker) :
  let position :=
    Position.mk (NodeIdentity.node_id (identity (tnode t))) lat lon alt accuracy
      speed course now (_convert_to_mgrs lat lon) in
  let t' := update_position msg_id now send_now lat lon alt accuracy speed course t in
  available (database (tnode t)) = false →
  current_position t' = Some position
  ∧ tnode t' = add_log (LogError "Position update failed" OperationalError) (tnode t).
Proof.
  intros position t' Ha. subst t'. unfold update_position. fold position.
  unfold upsert_position, with_connection. rewrite Ha. done.
Qed.

End tracking_properties.

Lemma position_update_reaches_receiver_witness :
  current_position
    (update_position (L := Scenario.plain_libs) "u1" 40 41 37 (-122) 0 10 0 0
       Exercise.alpha_tracker)
  = Some (Position.mk "a" 37 (-122) 0 10 0 0 40 "10Q")
  ∧ Position.mk "a" 37 (-122) 0 10 0 0 40 "10Q"
    ∈ positions (database (tnode
        (update_position (L := Scenario.plain_libs) "u1" 40 41 37 (-122) 0 10 0 0
           Exercise.alpha_tracker)))
  ∧ ∃ m, outbox (tnode
           (update_position (L := Scenario.plain_libs) "u1" 40 41 37 (-122) 0 10 0 0
              Exercise.alpha_tracker)) = [(2, m)]
      ∧ TacticalMessage.msg_id m = "u1"
      ∧ ∀ receiver m',
          TacticalMessage.topic m' = TacticalMessage.topic m →
          TacticalMessage.payload m' = TacticalMessage.payload m →
          available (database receiver) = true →
          positions (database
                       (_process_received_message (L := Scenario.plain_libs) m' receiver))
          = insert_or_replace Position.node_id
              (Position.mk "a" 37 (-122) 0 10 0 0 40 "10Q")
              (positions (database receiver)).
Proof.
  apply (position_update_reaches_receiver (L := Scenario.plain_libs) "u1" 40 41
           37 (-122) 0 10 0 0 Exercise.alpha_tracker); reflexivity.
Defined.

Lemma position_update_store_failure_witness :
  current_position
    (update_position (L := Scenario.plain_libs) "u1" 40 41 37 (-122) 0 10 0 0
       Exercise.wedged_tracker)
  = Some (Position.mk "a" 37 (-122) 0 10 0 0 40 "10Q")
  ∧ tnode (update_position (L := Scenario.plain_libs) "u1" 40 41 37 (-122) 0 10 0 0
             Exercise.wedged_tracker)
    = add_log (LogError "Position update failed" OperationalError) Scenario.wedged_node.
Proof.
  apply (position_update_store_failure (L := Scenario.plain_libs) "u1" 40 41
           37 (-122) 0 10 0 0 Exercise.wedged_tracker); reflexivity.
Defined.


(** ** The dataclasses *)

Lemma mapM_as_str (l : list string) : mapM (M := result) as_str (JStr <$> l) = Ok l.
Proof. induction l as [|s l IH]; [done|]. cbn. by rewrite IH. Qed.

(** [Cls( **asdict(x))] is [x], for the three classes that travel as
    dictionaries: whatever [asdict] writes, the constructor takes, and no
    field is lost or changed on the way. *)
Theorem asdict_round_trip :
  (∀ i, NodeIdentity.of_kwargs (NodeIdentity.asdict i) = Ok i)
  ∧ (∀ p, Position.of_kwargs (Position.asdict p) = Ok p)
  ∧ (∀ m, TacticalMessage.of_kwargs (TacticalMessage.asdict m) = Ok m).
Proof.
  split; [by intros []|]. split; [by intros []|].
  intros [a b c e f g h i j k l s].
  unfold TacticalMessage.of_kwargs, TacticalMessage.asdict, TacticalMessage.asdict_body.
  cbn [TacticalMessage.msg_id TacticalMessage.msg_type TacticalMessage.topic
       TacticalMessage.sender TacticalMessage.recipients TacticalMessage.classification
       TacticalMessage.priority TacticalMessage.timestamp TacticalMessage.expires
       TacticalMessage.payload TacticalMessage.attachments TacticalMessage.signature app].
  assert (get_str_list "recipients"
            [("msg_id", JStr a); ("msg_type", JStr b); ("topic", JStr c);
             ("sender", JStr e); ("recipients", JList (JStr <$> f));
             ("classification", JStr g); ("priority", JInt h);
             ("timestamp", JFloat i);
             ("expires", TacticalMessage.json_of_opt_float j);
             ("payload", JDict k); ("attachments", JList (JStr <$> l));
             ("signature", TacticalMessage.json_of_opt_str s)] = Ok f) as ->
    by apply mapM_as_str.
  assert (get_str_list "attachments"
            [("msg_id", JStr a); ("msg_type", JStr b); ("topic", JStr c);
             ("sender", JStr e); ("recipients", JList (JStr <$> f));
             ("classification", JStr g); ("priority", JInt h);
             ("timestamp", JFloat i);
             ("expires", TacticalMessage.json_of_opt_float j);
             ("payload", JDict k); ("attachments", JList (JStr <$> l));
             ("signature", TacticalMessage.json_of_opt_str s)] = Ok l) as ->
    by apply mapM_as_str.
  by destruct j, s.
Qed.

(** ** A geofence whose text does not parse *)

Section geofence_properties.
Context {L : Libraries}.

Lemma scan_zones_stops (point : coord) (pre post : list GeofenceZone.t)
    (z : GeofenceZone.t) (e : exn) (violations : list Violation.t) :
  wkt_loads (GeofenceZone.polygon z) = Raise e →
  scan_zones point (pre ++ z :: post) violations = scan_zones point pre violations.
Proof.
  intros Hz. revert violations. induction pre as [|z0 pre IH]; intros violations.
  - cbn. by rewrite Hz.
  - cbn. destruct (wkt_loads (GeofenceZone.polygon z0)); [apply IH|done].
Qed.

(** The check stops at the first active zone whose text the parser refuses:
    the answer is the one the zones stored before it give, and no zone stored
    after it is reported, whatever its type and wherever the position is. *)
Theorem unparsable_zone_hides_later_zones (position : Position.t) (d : db)
    (pre post : list GeofenceZone.t) (z : GeofenceZone.t) (e : exn) :
  geofences d = pre ++ z :: post →
  GeofenceZone.active z = true →
  wkt_loads (GeofenceZone.polygon z) = Raise e →
  check_geofence_violations position d
  = check_geofence_violations position
      (mk_db (available d) (nodes d) (positions d) (messages d) pre).
Proof.
  intros Hg Hactive Hz. unfold check_geofence_violations.
  cbn [available geofences]. destruct (available d); [|done].
  rewrite Hg, filter_app, filter_cons, decide_True by done.
  by eapply scan_zones_stops.
Qed.
End geofence_properties.

Lemma unparsable_zone_hides_later_zones_witness :
  check_geofence_violations (L := Scenario.geo_libs) (Scenario.at_ 5 5) Exercise.torn_db
  = check_geofence_violations (L := Scenario.geo_libs) (Scenario.at_ 5 5)
      (mk_db true [] [] [] [])
  ∧ check_geofence_violations (L := Scenario.geo_libs) (Scenario.at_ 5 5)
      Exercise.torn_db = [].
Proof.
  split; [|reflexivity].
  apply (unparsable_zone_hides_later_zones (L := Scenario.geo_libs) (Scenario.at_ 5 5)
           Exercise.torn_db [] [Scenario.Z_zone] Exercise.torn_zone WKTReadingError);
    reflexivity.
Defined.
